(** * L3 scope checker and letrec elimination

    A shallow embedding of [L3/check.py] and [L3/eliminate_letrec.py],
    together with the properties of the two passes.

    - [L3.Term], [L2.Term]: the two intermediate languages;
    - [check_term], [check_program]: the scope checker, with the
      [ValueError]s it raises made explicit;
    - [eliminate_letrec_term], [eliminate_letrec_program]: the lowering of
      [LetRec] to allocate / store / load. *)

From Stdlib Require Import ZArith String List Lia.
From stdpp Require Import base decidable option list strings gmap sets.

Local Set Warnings "-clear-no-such-hyp".

Local Open Scope Z_scope.
Local Open Scope string_scope.
Local Open Scope list_scope.

(** ** Syntax *)

(** Modelled from the spec: [L3/syntax.py] is not part of the sources at hand.
    [Identifier] is a Python [str]. *)
Abbreviation Identifier := string (only parsing).

(** [type Context = Mapping[Identifier, None]]: a dict whose values are all
    [None]; both passes only ever ask [name in context], so a finite set of
    keys carries everything the code can observe. *)
Abbreviation Context := (gset Identifier) (only parsing).

Module L3.

(** Modelled from the spec: [L3/syntax.py] is not part of the sources at hand;
    the variants and their fields are those of the data model (section 3) and
    of the [match] statements of the two passes, in the order in which
    [check_term] lists them.  Operators are kept as their textual names,
    literals, counts and indices as Python integers. *)
#[warnings="-register-all"]
Inductive Term : Type :=
| Let (bindings : list (Identifier * Term)) (body : Term)
| LetRec (bindings : list (Identifier * Term)) (body : Term)
| Reference (name : Identifier)
| Abstract (parameters : list Identifier) (body : Term)
| Apply (target : Term) (arguments : list Term)
| Immediate (value : Z)
| Primitive (operator : string) (left right : Term)
| Branch (operator : string) (left right consequent otherwise : Term)
| Allocate (count : Z)
| Load (base : Term) (index : Z)
| Store (base : Term) (index : Z) (value : Term)
| Begin (effects : list Term) (value : Term).

(** Modelled from the spec: [Program(parameters, body)] of [L3/syntax.py]. *)
Record Program : Type := MkProgram {
  parameters : list Identifier;
  body : Term;
}.

Section Induction.
Variable P : Term -> Prop.
Hypothesis HLet : forall bindings body,
  Forall (fun b => P (snd b)) bindings -> P body -> P (Let bindings body).
Hypothesis HLetRec : forall bindings body,
  Forall (fun b => P (snd b)) bindings -> P body -> P (LetRec bindings body).
Hypothesis HReference : forall name, P (Reference name).
Hypothesis HAbstract : forall parameters body,
  P body -> P (Abstract parameters body).
Hypothesis HApply : forall target arguments,
  P target -> Forall P arguments -> P (Apply target arguments).
Hypothesis HImmediate : forall value, P (Immediate value).
Hypothesis HPrimitive : forall operator left right,
  P left -> P right -> P (Primitive operator left right).
Hypothesis HBranch : forall operator left right consequent otherwise,
  P left -> P right -> P consequent -> P otherwise ->
  P (Branch operator left right consequent otherwise).
Hypothesis HAllocate : forall count, P (Allocate count).
Hypothesis HLoad : forall base index, P base -> P (Load base index).
Hypothesis HStore : forall base index value,
  P base -> P value -> P (Store base index value).
Hypothesis HBegin : forall effects value,
  Forall P effects -> P value -> P (Begin effects value).

(** Structural induction that also reaches the terms held in the binding,
    argument and effect lists. *)
Fixpoint Term_nested_ind (t : Term) : P t :=
  let fix terms (l : list Term) : Forall P l :=
    match l with
    | [] => @List.Forall_nil _ P
    | x :: l' => @List.Forall_cons _ P x l' (Term_nested_ind x) (terms l')
    end in
  let fix values (l : list (Identifier * Term))
      : Forall (fun b => P (snd b)) l :=
    match l with
    | [] => @List.Forall_nil _ _
    | b :: l' =>
        @List.Forall_cons _ (fun b => P (snd b)) b l'
          (match b return P (snd b) with (_, v) => Term_nested_ind v end)
          (values l')
    end in
  match t with
  | Let bs b => HLet bs b (values bs) (Term_nested_ind b)
  | LetRec bs b => HLetRec bs b (values bs) (Term_nested_ind b)
  | Reference n => HReference n
  | Abstract ps b => HAbstract ps b (Term_nested_ind b)
  | Apply f args => HApply f args (Term_nested_ind f) (terms args)
  | Immediate v => HImmediate v
  | Primitive o l r => HPrimitive o l r (Term_nested_ind l) (Term_nested_ind r)
  | Branch o l r c e =>
      HBranch o l r c e (Term_nested_ind l) (Term_nested_ind r)
        (Term_nested_ind c) (Term_nested_ind e)
  | Allocate c => HAllocate c
  | Load b i => HLoad b i (Term_nested_ind b)
  | Store b i v => HStore b i v (Term_nested_ind b) (Term_nested_ind v)
  | Begin es v => HBegin es v (terms es) (Term_nested_ind v)
  end.
End Induction.

End L3.

Module L2.

(** Modelled from the spec: [L2/syntax.py] is not part of the sources at hand.
    The target language mirrors [L3.Term] variant for variant and field for
    field, except that it has no [LetRec]. *)
#[warnings="-register-all"]
Inductive Term : Type :=
| Let (bindings : list (Identifier * Term)) (body : Term)
| Reference (name : Identifier)
| Abstract (parameters : list Identifier) (body : Term)
| Apply (target : Term) (arguments : list Term)
| Immediate (value : Z)
| Primitive (operator : string) (left right : Term)
| Branch (operator : string) (left right consequent otherwise : Term)
| Allocate (count : Z)
| Load (base : Term) (index : Z)
| Store (base : Term) (index : Z) (value : Term)
| Begin (effects : list Term) (value : Term).

(** Modelled from the spec: [Program(parameters, body)] of [L2/syntax.py]. *)
Record Program : Type := MkProgram {
  parameters : list Identifier;
  body : Term;
}.

Section Induction.
Variable P : Term -> Prop.
Hypothesis HLet : forall bindings body,
  Forall (fun b => P (snd b)) bindings -> P body -> P (Let bindings body).
Hypothesis HReference : forall name, P (Reference name).
Hypothesis HAbstract : forall parameters body,
  P body -> P (Abstract parameters body).
Hypothesis HApply : forall target arguments,
  P target -> Forall P arguments -> P (Apply target arguments).
Hypothesis HImmediate : forall value, P (Immediate value).
Hypothesis HPrimitive : forall operator left right,
  P left -> P right -> P (Primitive operator left right).
Hypothesis HBranch : forall operator left right consequent otherwise,
  P left -> P right -> P consequent -> P otherwise ->
  P (Branch operator left right consequent otherwise).
Hypothesis HAllocate : forall count, P (Allocate count).
Hypothesis HLoad : forall base index, P base -> P (Load base index).
Hypothesis HStore : forall base index value,
  P base -> P value -> P (Store base index value).
Hypothesis HBegin : forall effects value,
  Forall P effects -> P value -> P (Begin effects value).

(** Structural induction over target terms, reaching the terms held in the
    binding, argument and effect lists. *)
Fixpoint Term_nested_ind (t : Term) : P t :=
  let fix terms (l : list Term) : Forall P l :=
    match l with
    | [] => @List.Forall_nil _ P
    | x :: l' => @List.Forall_cons _ P x l' (Term_nested_ind x) (terms l')
    end in
  let fix values (l : list (Identifier * Term))
      : Forall (fun b => P (snd b)) l :=
    match l with
    | [] => @List.Forall_nil _ _
    | b :: l' =>
        @List.Forall_cons _ (fun b => P (snd b)) b l'
          (match b return P (snd b) with (_, v) => Term_nested_ind v end)
          (values l')
    end in
  match t with
  | Let bs b => HLet bs b (values bs) (Term_nested_ind b)
  | Reference n => HReference n
  | Abstract ps b => HAbstract ps b (Term_nested_ind b)
  | Apply f args => HApply f args (Term_nested_ind f) (terms args)
  | Immediate v => HImmediate v
  | Primitive o l r => HPrimitive o l r (Term_nested_ind l) (Term_nested_ind r)
  | Branch o l r c e =>
      HBranch o l r c e (Term_nested_ind l) (Term_nested_ind r)
        (Term_nested_ind c) (Term_nested_ind e)
  | Allocate c => HAllocate c
  | Load b i => HLoad b i (Term_nested_ind b)
  | Store b i v => HStore b i v (Term_nested_ind b) (Term_nested_ind v)
  | Begin es v => HBegin es v (terms es) (Term_nested_ind v)
  end.
End Induction.

End L2.

(** ** check.py *)

(** The [ValueError]s of [check.py], one constructor per message:
    - ["unknown variable: {name}"],
    - ["duplicate binders: {duplicates}"], where [duplicates] is a dict from
      name to number of occurrences,
    - ["duplicate parameters: {duplicates}"], where [duplicates] is a set of
      names. *)
Inductive ValueError : Type :=
| unknown_variable (name : Identifier)
| duplicate_binders (duplicates : list (Identifier * nat))
| duplicate_parameters (duplicates : gset Identifier).

(** What a call of the checker does: it returns [None] or raises. *)
Inductive result : Type :=
| Ok
| Raise (e : ValueError).

(** Statement sequencing: the second statement runs only when the first one
    did not raise. *)
Definition and_then (r k : result) : result :=
  match r with
  | Ok => k
  | Raise e => Raise e
  end.

Declare Scope check_scope.
Delimit Scope check_scope with check.
Notation "r ;; k" := (and_then r k)
  (at level 100, k at level 200, right associativity) : check_scope.
Local Open Scope check_scope.

(** [for x in l: f(x)], stopping at the first exception. *)
Definition for_each {A : Type} (f : A -> result) : list A -> result :=
  fix loop (l : list A) : result :=
    match l with
    | [] => Ok
    | x :: l' => f x ;; loop l'
    end.

(** One step of [collections.Counter]'s counting loop: an existing key keeps
    its place and has its count incremented, a new key goes last with
    count 1. *)
Fixpoint increment (name : Identifier) (counts : list (Identifier * nat))
  : list (Identifier * nat) :=
  match counts with
  | [] => [(name, 1%nat)]
  | (k, c) :: rest =>
      if decide (k = name) then (k, S c) :: rest
      else (k, c) :: increment name rest
  end.

(** [Counter(names)], as the list of its [items()]. *)
Definition Counter (names : list Identifier) : list (Identifier * nat) :=
  foldl (fun counts name => increment name counts) [] names.

(** [counts[name]]: a counter answers 0 for a name it does not hold. *)
Fixpoint getitem (counts : list (Identifier * nat)) (name : Identifier)
  : nat :=
  match counts with
  | [] => 0%nat
  | (k, c) :: rest => if decide (k = name) then c else getitem rest name
  end.

(** How many times [name] is listed in [names]. *)
Definition occurrences (name : Identifier) (names : list Identifier) : nat :=
  length (filter (fun x => x = name) names).

(** An item of a counter whose count is above zero, above one. *)
Definition positive (nc : Identifier * nat) : Prop := (0 < nc.2)%nat.
Definition repeated (nc : Identifier * nat) : Prop := (1 < nc.2)%nat.

#[global] Instance repeated_dec nc : Decision (repeated nc) :=
  decide (1 < nc.2)%nat.

(** [{name: count for name, count in counts.items() if count > 1}] *)
Definition duplicate_counts (counts : list (Identifier * nat))
  : list (Identifier * nat) :=
  filter repeated counts.

(** [{name for name, count in counts.items() if count > 1}] *)
Definition duplicate_names (counts : list (Identifier * nat))
  : gset Identifier :=
  list_to_set (duplicate_counts counts).*1.

(** [dict.fromkeys(names, None)], as its set of keys. *)
Definition fromkeys (names : list Identifier) : Context := list_to_set names.

(** Truthiness of a dict: it is not empty. *)
Definition truthy {A : Type} (d : list A) : bool :=
  match d with
  | [] => false
  | _ :: _ => true
  end.

(** Truthiness of a set: it is not empty. *)
Definition truthy_set (s : gset Identifier) : bool := bool_decide (s ≠ ∅).

(** [recur(t, ctx=c)] is [check_term(t, c)]; [{**context, **local}] has the
    keys of both dicts. *)
Fixpoint check_term (term : L3.Term) (context : Context) {struct term}
  : result :=
  match term with
  | L3.Let bindings body =>
      let counts := Counter bindings.*1 in
      let duplicates := duplicate_counts counts in
      if truthy duplicates then Raise (duplicate_binders duplicates) else
      for_each (fun '(_, value) => check_term value context) bindings ;;
      let local := fromkeys bindings.*1 in
      check_term body (context ∪ local)
  | L3.LetRec bindings body =>
      let counts := Counter bindings.*1 in
      let duplicates := duplicate_counts counts in
      if truthy duplicates then Raise (duplicate_binders duplicates) else
      let local := fromkeys bindings.*1 in
      for_each (fun '(_, value) => check_term value (context ∪ local))
        bindings ;;
      check_term body (context ∪ local)
  | L3.Reference name =>
      if decide (name ∉ context) then Raise (unknown_variable name) else Ok
  | L3.Abstract parameters body =>
      let counts := Counter parameters in
      let duplicates := duplicate_names counts in
      if truthy_set duplicates then Raise (duplicate_parameters duplicates)
      else
        let local := fromkeys parameters in
        check_term body (context ∪ local)
  | L3.Apply target arguments =>
      check_term target context ;;
      for_each (fun argument => check_term argument context) arguments
  | L3.Immediate _ => Ok
  | L3.Primitive _ left_ right_ =>
      check_term left_ context ;;
      check_term right_ context
  | L3.Branch _ left_ right_ consequent otherwise =>
      check_term left_ context ;;
      check_term right_ context ;;
      check_term consequent context ;;
      check_term otherwise context
  | L3.Allocate _ => Ok
  | L3.Load base _ => check_term base context
  | L3.Store base _ value =>
      check_term base context ;;
      check_term value context
  | L3.Begin effects value =>
      for_each (fun effect => check_term effect context) effects ;;
      check_term value context
  end.

Definition check_program (program : L3.Program) : result :=
  match program with
  | L3.MkProgram parameters body =>
      let counts := Counter parameters in
      let duplicates := duplicate_names counts in
      if truthy_set duplicates then Raise (duplicate_parameters duplicates)
      else
        let local := fromkeys parameters in
        check_term body local
  end.

(** ** eliminate_letrec.py *)

(** [recur(t)] is [eliminate_letrec_term(t, context)].  The final
    [raise TypeError] of the source is reached only by a value that is no
    [L3.Term] at all; on the closed type the [match] is exhaustive. *)
Fixpoint eliminate_letrec_term (term : L3.Term) (context : Context)
  {struct term} : L2.Term :=
  match term with
  | L3.Let bindings body =>
      let new_bindings :=
        fmap (fun '(name, value) => (name, eliminate_letrec_term value context))
          bindings in
      L2.Let new_bindings (eliminate_letrec_term body context)
  | L3.LetRec bindings body =>
      let rec_names := fmap (fun '(name, _) => name) bindings in
      let rec_ctx := context ∪ fromkeys rec_names in
      let alloc_bindings :=
        fmap (fun '(name, _) => (name, L2.Allocate 1)) bindings in
      let effects :=
        fmap (fun '(name, value) =>
               L2.Store (L2.Reference name) 0
                 (eliminate_letrec_term value rec_ctx))
          bindings in
      let new_body := eliminate_letrec_term body rec_ctx in
      L2.Let alloc_bindings (L2.Begin effects new_body)
  | L3.Reference name =>
      if decide (name ∈ context) then L2.Load (L2.Reference name) 0
      else L2.Reference name
  | L3.Abstract parameters body =>
      L2.Abstract parameters (eliminate_letrec_term body context)
  | L3.Apply target arguments =>
      L2.Apply (eliminate_letrec_term target context)
        (fmap (fun a => eliminate_letrec_term a context) arguments)
  | L3.Immediate value => L2.Immediate value
  | L3.Primitive operator left_ right_ =>
      L2.Primitive operator (eliminate_letrec_term left_ context)
        (eliminate_letrec_term right_ context)
  | L3.Branch operator left_ right_ consequent otherwise =>
      L2.Branch operator (eliminate_letrec_term left_ context)
        (eliminate_letrec_term right_ context)
        (eliminate_letrec_term consequent context)
        (eliminate_letrec_term otherwise context)
  | L3.Allocate count => L2.Allocate count
  | L3.Load base index => L2.Load (eliminate_letrec_term base context) index
  | L3.Store base index value =>
      L2.Store (eliminate_letrec_term base context) index
        (eliminate_letrec_term value context)
  | L3.Begin effects value =>
      L2.Begin (fmap (fun e => eliminate_letrec_term e context) effects)
        (eliminate_letrec_term value context)
  end.

Definition eliminate_letrec_program (program : L3.Program) : L2.Program :=
  match program with
  | L3.MkProgram parameters body =>
      L2.MkProgram parameters (eliminate_letrec_term body ∅)
  end.

(** ** Notions the properties are stated with *)

Module Shape.

(** The target language read as a fragment of the source language: each
    variant of [L2.Term] is sent to the variant of [L3.Term] of the same name
    with the same fields in the same order. *)
Fixpoint embed (t : L2.Term) : L3.Term :=
  match t with
  | L2.Let bindings body =>
      L3.Let (fmap (fun '(name, value) => (name, embed value)) bindings)
        (embed body)
  | L2.Reference name => L3.Reference name
  | L2.Abstract parameters body => L3.Abstract parameters (embed body)
  | L2.Apply target arguments => L3.Apply (embed target) (embed <$> arguments)
  | L2.Immediate value => L3.Immediate value
  | L2.Primitive operator l r => L3.Primitive operator (embed l) (embed r)
  | L2.Branch operator l r consequent otherwise =>
      L3.Branch operator (embed l) (embed r) (embed consequent)
        (embed otherwise)
  | L2.Allocate count => L3.Allocate count
  | L2.Load base index => L3.Load (embed base) index
  | L2.Store base index value => L3.Store (embed base) index (embed value)
  | L2.Begin effects value => L3.Begin (embed <$> effects) (embed value)
  end.

Definition embed_program (p : L2.Program) : L3.Program :=
  L3.MkProgram (L2.parameters p) (embed (L2.body p)).

(** Does a [LetRec] node occur anywhere in the tree? *)
Fixpoint contains_letrec (t : L3.Term) : bool :=
  match t with
  | L3.Let bindings body =>
      existsb (fun '(_, value) => contains_letrec value) bindings
      || contains_letrec body
  | L3.LetRec _ _ => true
  | L3.Reference _ => false
  | L3.Abstract _ body => contains_letrec body
  | L3.Apply target arguments =>
      contains_letrec target || existsb contains_letrec arguments
  | L3.Immediate _ => false
  | L3.Primitive _ l r => contains_letrec l || contains_letrec r
  | L3.Branch _ l r consequent otherwise =>
      contains_letrec l || contains_letrec r
      || contains_letrec consequent || contains_letrec otherwise
  | L3.Allocate _ => false
  | L3.Load base _ => contains_letrec base
  | L3.Store base _ value => contains_letrec base || contains_letrec value
  | L3.Begin effects value =>
      existsb contains_letrec effects || contains_letrec value
  end.

Definition program_contains_letrec (p : L3.Program) : bool :=
  contains_letrec (L3.body p).

(** Does a [Load] node occur anywhere in the tree? *)
Fixpoint contains_load (t : L3.Term) : bool :=
  match t with
  | L3.Let bindings body | L3.LetRec bindings body =>
      existsb (fun '(_, value) => contains_load value) bindings
      || contains_load body
  | L3.Reference _ => false
  | L3.Abstract _ body => contains_load body
  | L3.Apply target arguments =>
      contains_load target || existsb contains_load arguments
  | L3.Immediate _ => false
  | L3.Primitive _ l r => contains_load l || contains_load r
  | L3.Branch _ l r consequent otherwise =>
      contains_load l || contains_load r
      || contains_load consequent || contains_load otherwise
  | L3.Allocate _ => false
  | L3.Load _ _ => true
  | L3.Store base _ value => contains_load base || contains_load value
  | L3.Begin effects value =>
      existsb contains_load effects || contains_load value
  end.

(** The names of all the [Reference] nodes of the tree, left to right. *)
Fixpoint references (t : L3.Term) : list Identifier :=
  match t with
  | L3.Let bindings body | L3.LetRec bindings body =>
      flat_map (fun '(_, value) => references value) bindings
      ++ references body
  | L3.Reference name => [name]
  | L3.Abstract _ body => references body
  | L3.Apply target arguments =>
      references target ++ flat_map references arguments
  | L3.Immediate _ => []
  | L3.Primitive _ l r => references l ++ references r
  | L3.Branch _ l r consequent otherwise =>
      references l ++ references r
      ++ references consequent ++ references otherwise
  | L3.Allocate _ => []
  | L3.Load base _ => references base
  | L3.Store base _ value => references base ++ references value
  | L3.Begin effects value => flat_map references effects ++ references value
  end.

(** The number of [Allocate] nodes of the tree. *)
Fixpoint count_allocate (t : L3.Term) : nat :=
  match t with
  | L3.Let bindings body | L3.LetRec bindings body =>
      sum_list ((fun '(_, value) => count_allocate value) <$> bindings)
      + count_allocate body
  | L3.Reference _ => 0
  | L3.Abstract _ body => count_allocate body
  | L3.Apply target arguments =>
      count_allocate target + sum_list (count_allocate <$> arguments)
  | L3.Immediate _ => 0
  | L3.Primitive _ l r => count_allocate l + count_allocate r
  | L3.Branch _ l r consequent otherwise =>
      count_allocate l + count_allocate r
      + count_allocate consequent + count_allocate otherwise
  | L3.Allocate _ => 1
  | L3.Load base _ => count_allocate base
  | L3.Store base _ value => count_allocate base + count_allocate value
  | L3.Begin effects value =>
      sum_list (count_allocate <$> effects) + count_allocate value
  end%nat.

(** The number of [Store] nodes of the tree. *)
Fixpoint count_store (t : L3.Term) : nat :=
  match t with
  | L3.Let bindings body | L3.LetRec bindings body =>
      sum_list ((fun '(_, value) => count_store value) <$> bindings)
      + count_store body
  | L3.Reference _ => 0
  | L3.Abstract _ body => count_store body
  | L3.Apply target arguments =>
      count_store target + sum_list (count_store <$> arguments)
  | L3.Immediate _ => 0
  | L3.Primitive _ l r => count_store l + count_store r
  | L3.Branch _ l r consequent otherwise =>
      count_store l + count_store r
      + count_store consequent + count_store otherwise
  | L3.Allocate _ => 0
  | L3.Load base _ => count_store base
  | L3.Store base _ value => 1 + count_store base + count_store value
  | L3.Begin effects value =>
      sum_list (count_store <$> effects) + count_store value
  end%nat.

(** The number of bindings held by the [LetRec] nodes of the tree. *)
Fixpoint count_letrec_bindings (t : L3.Term) : nat :=
  match t with
  | L3.Let bindings body =>
      sum_list ((fun '(_, value) => count_letrec_bindings value) <$> bindings)
      + count_letrec_bindings body
  | L3.LetRec bindings body =>
      length bindings
      + sum_list ((fun '(_, value) => count_letrec_bindings value)
                    <$> bindings)
      + count_letrec_bindings body
  | L3.Reference _ => 0
  | L3.Abstract _ body => count_letrec_bindings body
  | L3.Apply target arguments =>
      count_letrec_bindings target
      + sum_list (count_letrec_bindings <$> arguments)
  | L3.Immediate _ => 0
  | L3.Primitive _ l r => count_letrec_bindings l + count_letrec_bindings r
  | L3.Branch _ l r consequent otherwise =>
      count_letrec_bindings l + count_letrec_bindings r
      + count_letrec_bindings consequent + count_letrec_bindings otherwise
  | L3.Allocate _ => 0
  | L3.Load base _ => count_letrec_bindings base
  | L3.Store base _ value =>
      count_letrec_bindings base + count_letrec_bindings value
  | L3.Begin effects value =>
      sum_list (count_letrec_bindings <$> effects)
      + count_letrec_bindings value
  end%nat.

(** Is [Load(base, index)] or [Store(base, index, _)] an access to slot 0 of
    the cell a variable names? *)
Definition is_cell_access (base : L2.Term) (index : Z) : bool :=
  match base with
  | L2.Reference _ => bool_decide (index = 0)
  | _ => false
  end.

(** The names of the [Reference] nodes that stand for the value of the
    variable itself, that is, all of them but the bases of the slot-0 cell
    accesses. *)
Fixpoint plain_references (t : L2.Term) : list Identifier :=
  match t with
  | L2.Let bindings body =>
      flat_map (fun '(_, value) => plain_references value) bindings
      ++ plain_references body
  | L2.Reference name => [name]
  | L2.Abstract _ body => plain_references body
  | L2.Apply target arguments =>
      plain_references target ++ flat_map plain_references arguments
  | L2.Immediate _ => []
  | L2.Primitive _ l r => plain_references l ++ plain_references r
  | L2.Branch _ l r consequent otherwise =>
      plain_references l ++ plain_references r
      ++ plain_references consequent ++ plain_references otherwise
  | L2.Allocate _ => []
  | L2.Load base index =>
      if is_cell_access base index then [] else plain_references base
  | L2.Store base index value =>
      (if is_cell_access base index then [] else plain_references base)
      ++ plain_references value
  | L2.Begin effects value =>
      flat_map plain_references effects ++ plain_references value
  end.

End Shape.

Module Scope.

(** The names of the [Reference] nodes of [t] that no enclosing binder makes
    visible, in the order of a left-to-right traversal.  [visible] holds the
    names bound around [t].  The scoping is that of the data model: the
    right-hand sides of a [Let] see only what is visible around the [Let],
    the right-hand sides of a [LetRec] and the bodies of [Let], [LetRec] and
    [Abstract] see the names the construct introduces as well. *)
Fixpoint unbound_references (t : L3.Term) (visible : gset Identifier)
  : list Identifier :=
  match t with
  | L3.Let bindings body =>
      flat_map (fun '(_, value) => unbound_references value visible) bindings
      ++ unbound_references body (visible ∪ list_to_set bindings.*1)
  | L3.LetRec bindings body =>
      flat_map
        (fun '(_, value) =>
           unbound_references value (visible ∪ list_to_set bindings.*1))
        bindings
      ++ unbound_references body (visible ∪ list_to_set bindings.*1)
  | L3.Reference name => if decide (name ∈ visible) then [] else [name]
  | L3.Abstract parameters body =>
      unbound_references body (visible ∪ list_to_set parameters)
  | L3.Apply target arguments =>
      unbound_references target visible
      ++ flat_map (fun a => unbound_references a visible) arguments
  | L3.Immediate _ => []
  | L3.Primitive _ l r =>
      unbound_references l visible ++ unbound_references r visible
  | L3.Branch _ l r consequent otherwise =>
      unbound_references l visible ++ unbound_references r visible
      ++ unbound_references consequent visible
      ++ unbound_references otherwise visible
  | L3.Allocate _ => []
  | L3.Load base _ => unbound_references base visible
  | L3.Store base _ value =>
      unbound_references base visible ++ unbound_references value visible
  | L3.Begin effects value =>
      flat_map (fun e => unbound_references e visible) effects
      ++ unbound_references value visible
  end.

(** The unbound references of a program: those of its body that are not
    among its parameters. *)
Definition program_unbound_references (p : L3.Program) : list Identifier :=
  unbound_references (L3.body p) (list_to_set (L3.parameters p)).

(** Is some name listed twice? *)
Definition repeats (names : list Identifier) : bool :=
  bool_decide (¬ NoDup names).

(** Does the tree hold, anywhere, a [Let] or [LetRec] with a repeated binder
    name or an [Abstract] with a repeated parameter name? *)
Fixpoint repeats_binder (t : L3.Term) : bool :=
  match t with
  | L3.Let bindings body | L3.LetRec bindings body =>
      repeats bindings.*1
      || existsb (fun '(_, value) => repeats_binder value) bindings
      || repeats_binder body
  | L3.Reference _ => false
  | L3.Abstract parameters body => repeats parameters || repeats_binder body
  | L3.Apply target arguments =>
      repeats_binder target || existsb repeats_binder arguments
  | L3.Immediate _ => false
  | L3.Primitive _ l r => repeats_binder l || repeats_binder r
  | L3.Branch _ l r consequent otherwise =>
      repeats_binder l || repeats_binder r
      || repeats_binder consequent || repeats_binder otherwise
  | L3.Allocate _ => false
  | L3.Load base _ => repeats_binder base
  | L3.Store base _ value => repeats_binder base || repeats_binder value
  | L3.Begin effects value =>
      existsb repeats_binder effects || repeats_binder value
  end.

(** The same for a program, whose own parameter list counts too. *)
Definition program_repeats_binder (p : L3.Program) : bool :=
  repeats (L3.parameters p) || repeats_binder (L3.body p).

(** The report of a checker that finds the given unbound references, in this
    order, and stops at the first. *)
Definition first_unbound (names : list Identifier) : result :=
  match names with
  | [] => Ok
  | name :: _ => Raise (unknown_variable name)
  end.

End Scope.

(** ** Sequencing and loops *)

Lemma and_then_Ok (r k : result) : (r ;; k) = Ok <-> r = Ok /\ k = Ok.
Proof. destruct r; simpl; intuition congruence. Qed.

Lemma for_each_Ok {A : Type} (f : A -> result) (l : list A) :
  for_each f l = Ok <-> Forall (fun x => f x = Ok) l.
Proof.
  induction l as [|x l IH]; simpl.
  - split; [constructor | reflexivity].
  - rewrite and_then_Ok, IH. split.
    + intros [? ?]. by constructor.
    + intros H. by inversion H.
Qed.

(** ** Counting occurrences *)

Section Counter.
Implicit Types (name : Identifier) (names : list Identifier).
Implicit Types (counts : list (Identifier * nat)).

Lemma increment_keys name counts k :
  k ∈ (increment name counts).*1 <-> k = name \/ k ∈ counts.*1.
Proof.
  induction counts as [|[k' c] rest IH]; simpl.
  - set_solver.
  - destruct (decide (k' = name)) as [->|Hne]; simpl.
    + set_solver.
    + rewrite !elem_of_cons, IH. tauto.
Qed.

Lemma increment_positive name counts :
  Forall positive counts -> Forall positive (increment name counts).
Proof.
  induction 1 as [|[k c] rest Hc Hrest IH]; simpl.
  - repeat constructor.
  - destruct (decide (k = name)); constructor; auto.
    unfold positive in *; simpl in *; lia.
Qed.

Lemma increment_repeated name counts :
  Forall positive counts ->
  Exists repeated (increment name counts)
  <-> Exists repeated counts \/ name ∈ counts.*1.
Proof.
  induction 1 as [|[k c] rest Hc Hrest IH]; simpl.
  - rewrite Exists_cons, !Exists_nil, elem_of_nil.
    unfold repeated; simpl. lia.
  - destruct (decide (k = name)) as [->|Hne].
    + rewrite !Exists_cons, elem_of_cons.
      unfold repeated, positive in *; simpl in *.
      split; [intros [?|?]; auto|intros [[?|?]|?]; auto]; left; lia.
    + rewrite !Exists_cons, IH, elem_of_cons. simpl. 
      split; [tauto|]. intros [[?|?]|[?|?]]; auto; congruence.
Qed.

Lemma foldl_increment_repeated names : forall counts,
  Forall positive counts ->
  Exists repeated (foldl (fun counts name => increment name counts)
                     counts names)
  <-> Exists repeated counts
      \/ (exists name, name ∈ names /\ name ∈ counts.*1)
      \/ ~ NoDup names.
Proof.
  induction names as [|n names IH]; intros counts Hpos; simpl.
  - split; [auto|]. intros [?|[(? & H & _)|H]]; auto.
    + by apply elem_of_nil in H.
    + destruct H. constructor.
  - rewrite IH by by apply increment_positive.
    rewrite increment_repeated by done.
    rewrite NoDup_cons.
    setoid_rewrite increment_keys. setoid_rewrite elem_of_cons.
    destruct (decide (n ∈ names)) as [Hin|Hin]; [naive_solver|].
    split.
    + intros [[?|?]|[(m & Hm & [->|?])|?]]; try naive_solver.
    + intros [?|[(m & [->|Hm] & ?)|Hd]]; try naive_solver.
Qed.

(** The counter holds a count above one exactly when a name is repeated. *)
Lemma Counter_repeated names :
  Exists repeated (Counter names) <-> ~ NoDup names.
Proof.
  unfold Counter. rewrite foldl_increment_repeated by constructor.
  rewrite Exists_nil. split; [|auto].
  intros [[]|[(? & _ & H)|?]]; [|done]. by apply elem_of_nil in H.
Qed.

Lemma duplicate_counts_Exists counts :
  duplicate_counts counts = [] <-> ~ Exists repeated counts.
Proof.
  unfold duplicate_counts.
  induction counts as [|nc rest IH]; simpl.
  - rewrite Exists_nil. tauto.
  - rewrite Exists_cons, filter_cons.
    destruct (decide (repeated nc)); [|tauto].
    split; [discriminate|tauto].
Qed.

Lemma duplicate_counts_nil names :
  duplicate_counts (Counter names) = [] <-> NoDup names.
Proof.
  rewrite duplicate_counts_Exists, Counter_repeated.
  destruct (decide (NoDup names)); tauto.
Qed.

Lemma truthy_duplicate_counts names :
  truthy (duplicate_counts (Counter names)) = false <-> NoDup names.
Proof.
  rewrite <- duplicate_counts_nil.
  destruct (duplicate_counts (Counter names)); simpl; split; congruence.
Qed.

Lemma duplicate_names_empty names :
  duplicate_names (Counter names) = ∅ <-> NoDup names.
Proof.
  rewrite <- duplicate_counts_nil. unfold duplicate_names.
  destruct (duplicate_counts (Counter names)) as [|[k c] rest]; simpl.
  - tauto.
  - split; [|discriminate]. intros H.
    assert (k ∈ (∅ : gset Identifier)) as Hk
      by (rewrite <- H; apply elem_of_union_l, elem_of_singleton; reflexivity).
    by apply not_elem_of_empty in Hk.
Qed.
End Counter.

(** ** Lists of sub-terms *)

Lemma existsb_false {A : Type} (f : A -> bool) (l : list A) :
  existsb f l = false <-> Forall (fun x => f x = false) l.
Proof.
  induction l as [|x l IH]; simpl.
  - rewrite Forall_nil. tauto.
  - rewrite Forall_cons, orb_false_iff, IH. tauto.
Qed.

Lemma for_each_ext {A : Type} (f g : A -> result) (l : list A) :
  Forall (fun x => f x = g x) l -> for_each f l = for_each g l.
Proof. induction 1 as [|x l Hx _ IH]; simpl; [done|]. by rewrite Hx, IH. Qed.

Lemma Forall_impl2 {A : Type} (P Q R : A -> Prop) (l : list A) :
  Forall P l -> Forall Q l -> (forall x, P x -> Q x -> R x) -> Forall R l.
Proof.
  intros HP HQ H. induction HP; inversion HQ; subst; constructor; auto.
Qed.

Lemma binding_names (bindings : list (Identifier * L3.Term)) :
  (fun '(name, _) => name) <$> bindings = bindings.*1.
Proof. apply list_fmap_ext. by intros _ [? ?] _. Qed.

(** ** The eliminator produces no [LetRec] *)

Lemma eliminate_letrec_term_no_letrec (t : L3.Term) : forall R : Context,
  Shape.contains_letrec (Shape.embed (eliminate_letrec_term t R)) = false.
Proof.
  induction t as
    [bs b IHbs IHb | bs b IHbs IHb | n | ps b IHb | f args IHf IHargs | v
    | o l r IHl IHr | o l r c e IHl IHr IHc IHe | c | b i IHb
    | b i v IHb IHv | es v IHes IHv] using L3.Term_nested_ind;
    intros R; simpl;
    rewrite ?IHb, ?IHf, ?IHl, ?IHr, ?IHc, ?IHe, ?IHv, ?orb_false_r;
    try reflexivity.
  - apply existsb_false. rewrite <- list_fmap_compose, Forall_fmap.
    eapply Forall_impl; [exact IHbs|]. intros [n v] Hv. apply Hv.
  - rewrite orb_false_iff, !existsb_false, <- !list_fmap_compose, !Forall_fmap.
    split; [by apply Forall_true; intros []|].
    eapply Forall_impl; [exact IHbs|]. intros [n v] Hv. simpl. by rewrite Hv.
  - case_decide; reflexivity.
  - apply existsb_false. rewrite <- list_fmap_compose, Forall_fmap.
    eapply Forall_impl; [exact IHargs|]. intros a Ha. apply Ha.
  - apply existsb_false. rewrite <- list_fmap_compose, Forall_fmap.
    eapply Forall_impl; [exact IHes|]. intros a Ha. apply Ha.
Qed.

(** ** Terms without [LetRec] are lowered to themselves *)

Lemma eliminate_letrec_term_identity (t : L3.Term) :
  Shape.contains_letrec t = false ->
  Shape.embed (eliminate_letrec_term t ∅) = t.
Proof.
  induction t as
    [bs b IHbs IHb | bs b IHbs IHb | n | ps b IHb | f args IHf IHargs | v
    | o l r IHl IHr | o l r c e IHl IHr IHc IHe | c | b i IHb
    | b i v IHb IHv | es v IHes IHv] using L3.Term_nested_ind;
    simpl; rewrite ?orb_false_iff, ?existsb_false; intros H;
    try discriminate; try reflexivity.
  - destruct H as [Hbs Hb]. rewrite IHb by done. f_equal.
    rewrite <- list_fmap_compose. rewrite <- (list_fmap_id bs) at 2.
    apply Forall_fmap_ext.
    eapply Forall_impl2; [exact IHbs|exact Hbs|].
    intros [n v] IH Hv; simpl in *. by rewrite IH.
  - by rewrite IHb.
  - destruct H as [Hf Hargs]. rewrite IHf by done. f_equal.
    rewrite <- list_fmap_compose. rewrite <- (list_fmap_id args) at 2.
    apply Forall_fmap_ext.
    eapply Forall_impl2; [exact IHargs|exact Hargs|].
    intros a IH Ha; simpl. by apply IH.
  - destruct H. by rewrite IHl, IHr.
  - destruct H as [[[? ?] ?] ?]. by rewrite IHl, IHr, IHc, IHe.
  - by rewrite IHb.
  - destruct H. by rewrite IHb, IHv.
  - destruct H as [Hes Hv]. rewrite IHv by done. f_equal.
    rewrite <- list_fmap_compose. rewrite <- (list_fmap_id es) at 2.
    apply Forall_fmap_ext.
    eapply Forall_impl2; [exact IHes|exact Hes|].
    intros a IH Ha; simpl. by apply IH.
Qed.

(** ** The checker, one equation per binding construct *)

Lemma repeats_false (names : list Identifier) :
  Scope.repeats names = false <-> NoDup names.
Proof.
  unfold Scope.repeats. rewrite bool_decide_eq_false.
  destruct (decide (NoDup names)); tauto.
Qed.

Lemma repeats_true (names : list Identifier) :
  Scope.repeats names = true <-> ~ NoDup names.
Proof. unfold Scope.repeats. by rewrite bool_decide_eq_true. Qed.

Lemma truthy_repeats (names : list Identifier) :
  truthy (duplicate_counts (Counter names)) = Scope.repeats names.
Proof.
  destruct (Scope.repeats names) eqn:Hr.
  - apply not_false_iff_true. rewrite truthy_duplicate_counts.
    by apply repeats_true.
  - by apply truthy_duplicate_counts, repeats_false.
Qed.

Lemma truthy_set_repeats (names : list Identifier) :
  truthy_set (duplicate_names (Counter names)) = Scope.repeats names.
Proof.
  unfold truthy_set, Scope.repeats. apply bool_decide_ext.
  by rewrite duplicate_names_empty.
Qed.

Lemma check_term_Let (bindings : list (Identifier * L3.Term)) body C :
  check_term (L3.Let bindings body) C =
  if Scope.repeats bindings.*1
  then Raise (duplicate_binders (duplicate_counts (Counter bindings.*1)))
  else for_each (fun b => check_term b.2 C) bindings ;;
       check_term body (C ∪ list_to_set bindings.*1).
Proof.
  simpl. rewrite truthy_repeats.
  destruct (Scope.repeats bindings.*1); [done|].
  f_equal. apply for_each_ext, Forall_true. by intros [? ?].
Qed.

Lemma check_term_LetRec (bindings : list (Identifier * L3.Term)) body C :
  check_term (L3.LetRec bindings body) C =
  if Scope.repeats bindings.*1
  then Raise (duplicate_binders (duplicate_counts (Counter bindings.*1)))
  else for_each (fun b => check_term b.2 (C ∪ list_to_set bindings.*1))
         bindings ;;
       check_term body (C ∪ list_to_set bindings.*1).
Proof.
  simpl. rewrite truthy_repeats.
  destruct (Scope.repeats bindings.*1); [done|].
  f_equal. apply for_each_ext, Forall_true. by intros [? ?].
Qed.

Lemma check_term_Abstract (parameters : list Identifier) body C :
  check_term (L3.Abstract parameters body) C =
  if Scope.repeats parameters
  then Raise (duplicate_parameters (duplicate_names (Counter parameters)))
  else check_term body (C ∪ list_to_set parameters).
Proof.
  simpl. by rewrite truthy_set_repeats.
Qed.

Lemma check_program_eq (parameters : list Identifier) body :
  check_program (L3.MkProgram parameters body) =
  if Scope.repeats parameters
  then Raise (duplicate_parameters (duplicate_names (Counter parameters)))
  else check_term body (list_to_set parameters).
Proof.
  simpl. by rewrite truthy_set_repeats.
Qed.

(** ** Accepted terms repeat no binder *)

Lemma check_term_Ok_no_repeat (t : L3.Term) : forall C : Context,
  check_term t C = Ok -> Scope.repeats_binder t = false.
Proof.
  induction t as
    [bs b IHbs IHb | bs b IHbs IHb | n | ps b IHb | f args IHf IHargs | v
    | o l r IHl IHr | o l r c e IHl IHr IHc IHe | c | b i IHb
    | b i v IHb IHv | es v IHes IHv] using L3.Term_nested_ind;
    intros C;
    rewrite ?check_term_Let, ?check_term_LetRec, ?check_term_Abstract;
    cbn [check_term Scope.repeats_binder];
    try destruct (Scope.repeats _) eqn:Hr; try discriminate;
    rewrite ?and_then_Ok, ?for_each_Ok, ?orb_false_iff, ?existsb_false;
    try reflexivity.
  - intros [Hbs Hb]. split; [split; [done|]|by eapply IHb].
    eapply Forall_impl2; [exact IHbs|exact Hbs|]. intros [n v] IH Hv. eapply IH, Hv.
  - intros [Hbs Hb]. split; [split; [done|]|by eapply IHb].
    eapply Forall_impl2; [exact IHbs|exact Hbs|]. intros [n v] IH Hv. eapply IH, Hv.
  - intros Hb. split; [done|by eapply IHb].
  - intros [Hf Hargs]. split; [by eapply IHf|].
    eapply Forall_impl2; [exact IHargs|exact Hargs|]. intros a IH Ha. eapply IH, Ha.
  - intros [? ?]. split; [by eapply IHl|by eapply IHr].
  - intros (? & ? & ? & ?).
    repeat split; [by eapply IHl|by eapply IHr|by eapply IHc|by eapply IHe].
  - apply IHb.
  - intros [? ?]. split; [by eapply IHb|by eapply IHv].
  - intros [Hes Hv]. split; [|by eapply IHv].
    eapply Forall_impl2; [exact IHes|exact Hes|]. intros a IH Ha. eapply IH, Ha.
Qed.

(** ** Without repeated binders, the checker reports the first unbound
    reference *)

Lemma first_unbound_app (l1 l2 : list Identifier) :
  Scope.first_unbound (l1 ++ l2)
  = (Scope.first_unbound l1 ;; Scope.first_unbound l2).
Proof. by destruct l1. Qed.

Lemma for_each_first_unbound {A : Type} (f : A -> result)
    (g : A -> list Identifier) (l : list A) :
  Forall (fun x => f x = Scope.first_unbound (g x)) l ->
  for_each f l = Scope.first_unbound (flat_map g l).
Proof.
  induction 1 as [|x l Hx _ IH]; simpl; [done|].
  by rewrite first_unbound_app, Hx, IH.
Qed.

Lemma check_term_first_unbound (t : L3.Term) : forall C : Context,
  Scope.repeats_binder t = false ->
  check_term t C = Scope.first_unbound (Scope.unbound_references t C).
Proof.
  induction t as
    [bs b IHbs IHb | bs b IHbs IHb | n | ps b IHb | f args IHf IHargs | v
    | o l r IHl IHr | o l r c e IHl IHr IHc IHe | c | b i IHb
    | b i v IHb IHv | es v IHes IHv] using L3.Term_nested_ind;
    intros C;
    rewrite ?check_term_Let, ?check_term_LetRec, ?check_term_Abstract;
    cbn [check_term Scope.repeats_binder Scope.unbound_references];
    rewrite ?orb_false_iff, ?existsb_false, ?first_unbound_app;
    try reflexivity.
  - intros [[-> Hbs] Hb]. rewrite IHb by done. f_equal.
    apply for_each_first_unbound.
    eapply Forall_impl2; [exact IHbs|exact Hbs|].
    intros [n v] IH Hv. by apply IH.
  - intros [[-> Hbs] Hb]. rewrite IHb by done. f_equal.
    apply for_each_first_unbound.
    eapply Forall_impl2; [exact IHbs|exact Hbs|].
    intros [n v] IH Hv. by apply IH.
  - intros _. by destruct (decide (n ∈ C)), (decide (n ∉ C)).
  - intros [-> Hb]. by apply IHb.
  - intros [Hf Hargs]. rewrite IHf by done. f_equal.
    apply for_each_first_unbound.
    eapply Forall_impl2; [exact IHargs|exact Hargs|]. intros a IH Ha. by apply IH.
  - intros [? ?]. by rewrite IHl, IHr.
  - intros [[[? ?] ?] ?]. by rewrite IHl, IHr, IHc, IHe.
  - apply IHb.
  - intros [? ?]. by rewrite IHb, IHv.
  - intros [Hes Hv]. rewrite IHv by done. f_equal.
    apply for_each_first_unbound.
    eapply Forall_impl2; [exact IHes|exact Hes|]. intros a IH Ha. by apply IH.
Qed.

Lemma first_unbound_Ok (names : list Identifier) :
  Scope.first_unbound names = Ok <-> names = [].
Proof. destruct names; simpl; split; congruence. Qed.

(** An accepted term has no unbound reference. *)
Lemma check_term_Ok_bound (t : L3.Term) (C : Context) :
  check_term t C = Ok -> Scope.unbound_references t C = [].
Proof.
  intros H. apply first_unbound_Ok.
  rewrite <- check_term_first_unbound; [done|].
  by eapply check_term_Ok_no_repeat.
Qed.

(** ** Names known to be recursive are always dereferenced *)

Lemma not_elem_of_flat_map {A : Type} (f : A -> list Identifier)
    (l : list A) (n : Identifier) :
  Forall (fun x => n ∉ f x) l -> n ∉ flat_map f l.
Proof.
  induction 1 as [|x l Hx _ IH]; simpl.
  - apply not_elem_of_nil.
  - rewrite elem_of_app. tauto.
Qed.

Lemma not_elem_of_cell_access (base : L2.Term) (index : Z) (n : Identifier) :
  n ∉ Shape.plain_references base ->
  n ∉ (if Shape.is_cell_access base index then []
       else Shape.plain_references base).
Proof. destruct (Shape.is_cell_access base index); [|done]. intros _. apply not_elem_of_nil. Qed.

Lemma eliminate_letrec_term_dereferences (t : L3.Term) (n : Identifier) :
  forall R : Context,
  n ∈ R -> n ∉ Shape.plain_references (eliminate_letrec_term t R).
Proof.
  induction t as
    [bs b IHbs IHb | bs b IHbs IHb | m | ps b IHb | f args IHf IHargs | v
    | o l r IHl IHr | o l r c e IHl IHr IHc IHe | c | b i IHb
    | b i v IHb IHv | es v IHes IHv] using L3.Term_nested_ind;
    intros R Hn; simpl; rewrite ?elem_of_app.
  - intros [H|H]; [|by eapply IHb]. revert H. apply not_elem_of_flat_map.
    rewrite Forall_fmap. eapply Forall_impl; [exact IHbs|].
    intros [k v] IH. by apply IH.
  - assert (n ∈ R ∪ fromkeys ((fun '(name, _) => name) <$> bs)) as Hn'
      by (apply elem_of_union; by left).
    intros [H|[H|H]]; [..|by eapply IHb]; revert H;
      apply not_elem_of_flat_map; rewrite Forall_fmap.
    + apply Forall_true. intros [k v]. apply not_elem_of_nil.
    + eapply Forall_impl; [exact IHbs|]. intros [k v] IH. simpl. by apply IH.
  - case_decide; simpl; [apply not_elem_of_nil|].
    rewrite list_elem_of_singleton. congruence.
  - by apply IHb.
  - intros [H|H]; [by eapply IHf|]. revert H. apply not_elem_of_flat_map.
    rewrite Forall_fmap. eapply Forall_impl; [exact IHargs|].
    intros a IH. by apply IH.
  - apply not_elem_of_nil.
  - intros [H|H]; [by eapply IHl|by eapply IHr].
  - intros [H|[H|[H|H]]];
      [by eapply IHl|by eapply IHr|by eapply IHc|by eapply IHe].
  - apply not_elem_of_nil.
  - by apply not_elem_of_cell_access, IHb.
  - intros [H|H]; [|by eapply IHv]. revert H.
    by apply not_elem_of_cell_access, IHb.
  - intros [H|H]; [|by eapply IHv]. revert H. apply not_elem_of_flat_map.
    rewrite Forall_fmap. eapply Forall_impl; [exact IHes|].
    intros a IH. by apply IH.
Qed.

(** * Properties of the scope checker *)

(** C1. The docstring of [check_term] announces that a [Let] or [LetRec]
    binder and an [Abstract] parameter "cannot reuse an identifier already in
    scope".  The code never compares the new names with [context]: a [Let],
    a [LetRec] and an [Abstract] that rebind the visible name [x] are all
    accepted, and so is a program whose body rebinds its own parameter. *)
Theorem check_term_accepts_shadowing :
  check_term (L3.Let [("x", L3.Immediate 1)] (L3.Reference "x")) {[ "x" ]}
  = Ok
  /\ check_term (L3.LetRec [("x", L3.Immediate 1)] (L3.Reference "x"))
       {[ "x" ]}
     = Ok
  /\ check_term (L3.Abstract ["x"] (L3.Reference "x")) {[ "x" ]} = Ok
  /\ check_program
       (L3.MkProgram ["x"]
          (L3.Let [("x", L3.Immediate 1)] (L3.Reference "x")))
     = Ok.
Proof. repeat split; vm_compute; reflexivity. Qed.

(** C5. For a [LetRec] whose binder names are pairwise distinct, every
    right-hand side and the body are checked under the context extended with
    all the binder names of this [LetRec]: the [LetRec] is accepted exactly
    when all of them are accepted under that extended context. *)
Theorem check_term_LetRec_scoping
    (bindings : list (Identifier * L3.Term)) (body : L3.Term) (C : Context) :
  NoDup bindings.*1 ->
  check_term (L3.LetRec bindings body) C = Ok
  <-> Forall (fun b => check_term b.2 (C ∪ list_to_set bindings.*1) = Ok)
        bindings
      /\ check_term body (C ∪ list_to_set bindings.*1) = Ok.
Proof.
  intros Hnodup. rewrite check_term_LetRec.
  apply repeats_false in Hnodup. rewrite Hnodup.
  by rewrite and_then_Ok, for_each_Ok.
Qed.

Lemma check_term_LetRec_scoping_witness :
  NoDup [("even", L3.Abstract ["n"] (L3.Apply (L3.Reference "odd")
                                       [L3.Reference "n"]));
         ("odd", L3.Abstract ["n"] (L3.Apply (L3.Reference "even")
                                      [L3.Reference "n"]))].*1
  /\ (check_term
        (L3.LetRec
           [("even", L3.Abstract ["n"] (L3.Apply (L3.Reference "odd")
                                          [L3.Reference "n"]));
            ("odd", L3.Abstract ["n"] (L3.Apply (L3.Reference "even")
                                         [L3.Reference "n"]))]
           (L3.Apply (L3.Reference "even") [L3.Immediate 4])) ∅ = Ok
      <-> Forall (fun b => check_term b.2 (∅ ∪ list_to_set ["even"; "odd"])
                           = Ok)
            [("even", L3.Abstract ["n"] (L3.Apply (L3.Reference "odd")
                                           [L3.Reference "n"]));
             ("odd", L3.Abstract ["n"] (L3.Apply (L3.Reference "even")
                                          [L3.Reference "n"]))]
          /\ check_term (L3.Apply (L3.Reference "even") [L3.Immediate 4])
               (∅ ∪ list_to_set ["even"; "odd"]) = Ok).
Proof.
  assert (NoDup ["even"; "odd"]) as Hnodup
    by compute_done.
  split; [exact Hnodup|].
  apply (check_term_LetRec_scoping
           [("even", L3.Abstract ["n"] (L3.Apply (L3.Reference "odd")
                                          [L3.Reference "n"]));
            ("odd", L3.Abstract ["n"] (L3.Apply (L3.Reference "even")
                                         [L3.Reference "n"]))]
           (L3.Apply (L3.Reference "even") [L3.Immediate 4]) ∅ Hnodup).
Defined.

(** C6. For a [Let] whose binder names are pairwise distinct, every
    right-hand side is checked under the incoming context, with no binder of
    this [Let] added, and the body under the context extended with all the
    binder names.  In [Let([(x, Reference(x))], B)] the right-hand side [x] is
    therefore looked up in the incoming context only: it is an unknown
    variable when [x] is not visible outside, and the check goes on with [B]
    when it is. *)
Theorem check_term_Let_scoping
    (bindings : list (Identifier * L3.Term)) (body : L3.Term) (C : Context) :
  NoDup bindings.*1 ->
  (check_term (L3.Let bindings body) C = Ok
   <-> Forall (fun b => check_term b.2 C = Ok) bindings
       /\ check_term body (C ∪ list_to_set bindings.*1) = Ok)
  /\ (forall (x : Identifier) (A B : L3.Term),
        check_term (L3.Let [(x, A)] B) C
        = (check_term A C ;; check_term B (C ∪ {[ x ]})))
  /\ (forall (x : Identifier) (B : L3.Term),
        x ∉ C ->
        check_term (L3.Let [(x, L3.Reference x)] B) C
        = Raise (unknown_variable x)).
Proof.
  intros Hnodup.
  assert (forall (x : Identifier) (A B : L3.Term),
            check_term (L3.Let [(x, A)] B) C
            = (check_term A C ;; check_term B (C ∪ {[ x ]}))) as Hone.
  { intros x A B. rewrite check_term_Let.
    assert (Scope.repeats [(x, A)].*1 = false) as ->
      by apply repeats_false, NoDup_singleton.
    simpl. rewrite union_empty_r_L. by destruct (check_term A C). }
  split; [|split; [exact Hone|]].
  - rewrite check_term_Let.
    apply repeats_false in Hnodup. rewrite Hnodup.
    by rewrite and_then_Ok, for_each_Ok.
  - intros x B Hx. rewrite Hone. simpl. by rewrite decide_True.
Qed.

Lemma check_term_Let_scoping_witness :
  NoDup [("x", L3.Reference "x")].*1
  /\ check_term (L3.Let [("x", L3.Reference "x")] (L3.Reference "x")) ∅
     = Raise (unknown_variable "x")
  /\ ~ Forall (fun b => check_term b.2 ∅ = Ok) [("x", L3.Reference "x")].
Proof.
  assert (NoDup [("x", L3.Reference "x")].*1) as Hnodup by compute_done.
  destruct (check_term_Let_scoping [("x", L3.Reference "x")]
              (L3.Reference "x") ∅ Hnodup) as (Hiff & Hone & Hself).
  split; [exact Hnodup|]. split.
  - apply (Hself "x" (L3.Reference "x")). compute_done.
  - intros Hall. inversion Hall as [|? ? Hx _]. vm_compute in Hx. discriminate.
Defined.

(** C7. A program that holds a reference to a name no enclosing binder makes
    visible is rejected.  The checker raises at the first violation it meets:
    when no binder or parameter list of the program repeats a name, that is
    the unknown variable of the first unbound reference in traversal order.
    [Program([], Begin([Reference("f")], Immediate(0)))] is rejected with
    the unknown variable [f]. *)
Theorem check_program_rejects_unbound (p : L3.Program) (name : Identifier) :
  name ∈ Scope.program_unbound_references p ->
  (exists e, check_program p = Raise e)
  /\ (Scope.program_repeats_binder p = false ->
      exists first rest,
        Scope.program_unbound_references p = first :: rest
        /\ check_program p = Raise (unknown_variable first))
  /\ check_program
       (L3.MkProgram [] (L3.Begin [L3.Reference "f"] (L3.Immediate 0)))
     = Raise (unknown_variable "f").
Proof.
  destruct p as [ps b].
  unfold Scope.program_unbound_references; cbn [L3.body L3.parameters].
  intros Hin. split; [|split].
  - destruct (check_program (L3.MkProgram ps b)) as [|e] eqn:Hc; [|by exists e].
    rewrite check_program_eq in Hc.
    destruct (Scope.repeats ps); [discriminate|].
    apply check_term_Ok_bound in Hc. rewrite Hc in Hin.
    by apply elem_of_nil in Hin.
  - unfold Scope.program_repeats_binder; cbn [L3.body L3.parameters].
    rewrite orb_false_iff. intros [Hps Hb].
    rewrite check_program_eq, Hps, check_term_first_unbound by done.
    destruct (Scope.unbound_references b (list_to_set ps)) as [|first rest].
    + by apply elem_of_nil in Hin.
    + by exists first, rest.
  - vm_compute. reflexivity.
Qed.

Lemma check_program_rejects_unbound_witness :
  "g" ∈ Scope.program_unbound_references
          (L3.MkProgram ["x"]
             (L3.Let [("y", L3.Reference "x")]
                (L3.Apply (L3.Reference "g") [L3.Reference "y"])))
  /\ check_program
       (L3.MkProgram ["x"]
          (L3.Let [("y", L3.Reference "x")]
             (L3.Apply (L3.Reference "g") [L3.Reference "y"])))
     = Raise (unknown_variable "g").
Proof.
  assert ("g" ∈ Scope.program_unbound_references
            (L3.MkProgram ["x"]
               (L3.Let [("y", L3.Reference "x")]
                  (L3.Apply (L3.Reference "g") [L3.Reference "y"]))))
    as Hin by (vm_compute; apply list_elem_of_here).
  split; [exact Hin|].
  destruct (check_program_rejects_unbound _ _ Hin) as (_ & Hfirst & _).
  destruct (Hfirst eq_refl) as (first & rest & Hrefs & ->).
  vm_compute in Hrefs. congruence.
Defined.

(** C7, as first stated: the violation is not always the unknown variable.
    A program with a repeated parameter and an unbound reference is rejected
    for the repeated parameter. *)
Lemma check_program_unbound_counterexample :
  "f" ∈ Scope.program_unbound_references
          (L3.MkProgram ["x"; "x"] (L3.Reference "f"))
  /\ check_program (L3.MkProgram ["x"; "x"] (L3.Reference "f"))
     = Raise (duplicate_parameters {[ "x" ]})
  /\ check_program (L3.MkProgram ["x"; "x"] (L3.Reference "f"))
     <> Raise (unknown_variable "f").
Proof.
  split; [vm_compute; apply list_elem_of_here|].
  split; [vm_compute; reflexivity|].
  vm_compute. discriminate.
Qed.

(** When several references are unbound the first one is named. *)
Example check_program_names_first_unbound :
  Scope.program_unbound_references
    (L3.MkProgram [] (L3.Begin [L3.Reference "a"] (L3.Reference "b")))
  = ["a"; "b"]
  /\ check_program
       (L3.MkProgram [] (L3.Begin [L3.Reference "a"] (L3.Reference "b")))
     = Raise (unknown_variable "a").
Proof. split; vm_compute; reflexivity. Qed.

(** C8. A program that holds, anywhere in its tree, a [Let] or [LetRec] with
    a repeated binder name or an [Abstract] with a repeated parameter name, or
    whose own parameter list repeats a name, is rejected.
    [Program(["x"], LetRec([("f", Immediate(0)), ("f", Immediate(1))],
    Immediate(0)))] is rejected for its duplicate binders, the reported names
    being [{f}]. *)
Theorem check_program_rejects_repeated_binder (p : L3.Program) :
  Scope.program_repeats_binder p = true ->
  (exists e, check_program p = Raise e)
  /\ check_program
       (L3.MkProgram ["x"]
          (L3.LetRec [("f", L3.Immediate 0); ("f", L3.Immediate 1)]
             (L3.Immediate 0)))
     = Raise (duplicate_binders [("f", 2%nat)])
  /\ [("f", 2%nat)].*1 = ["f"].
Proof.
  intros Hrep. split; [|split; vm_compute; reflexivity].
  destruct p as [ps b].
  destruct (check_program (L3.MkProgram ps b)) as [|e] eqn:Hc; [|by exists e].
  rewrite check_program_eq in Hc.
  unfold Scope.program_repeats_binder in Hrep.
  cbn [L3.body L3.parameters] in Hrep.
  destruct (Scope.repeats ps); [discriminate|].
  apply check_term_Ok_no_repeat in Hc. simpl in Hrep. congruence.
Qed.

Lemma check_program_rejects_repeated_binder_witness :
  Scope.program_repeats_binder
    (L3.MkProgram ["x"]
       (L3.Apply (L3.Reference "x")
          [L3.Immediate 0;
           L3.Abstract ["a"; "b"; "a"] (L3.Reference "b")])) = true
  /\ exists e,
       check_program
         (L3.MkProgram ["x"]
            (L3.Apply (L3.Reference "x")
               [L3.Immediate 0;
                L3.Abstract ["a"; "b"; "a"] (L3.Reference "b")]))
       = Raise e.
Proof.
  split; [vm_compute; reflexivity|].
  apply (check_program_rejects_repeated_binder
           (L3.MkProgram ["x"]
              (L3.Apply (L3.Reference "x")
                 [L3.Immediate 0;
                  L3.Abstract ["a"; "b"; "a"] (L3.Reference "b")]))).
  vm_compute. reflexivity.
Defined.

(** * Properties of the letrec eliminator *)

(** C4. A reference to a name of the recursive-name set becomes a load of
    slot 0 of the cell the name is bound to; a reference to any other name
    stays the same reference, with no load.  Under the empty set every
    reference is left as it is. *)
Theorem eliminate_letrec_term_Reference (name : Identifier) (R : Context) :
  (name ∈ R ->
   eliminate_letrec_term (L3.Reference name) R
   = L2.Load (L2.Reference name) 0)
  /\ (name ∉ R ->
      eliminate_letrec_term (L3.Reference name) R = L2.Reference name)
  /\ eliminate_letrec_term (L3.Reference name) ∅ = L2.Reference name
  /\ eliminate_letrec_term (L3.Reference "x") ∅ = L2.Reference "x".
Proof.
  split; [|split; [|split]].
  - intros Hin. simpl. by rewrite decide_True.
  - intros Hnotin. simpl. by rewrite decide_False.
  - reflexivity.
  - reflexivity.
Qed.

Lemma eliminate_letrec_term_Reference_witness :
  ("f" ∈ ({[ "f" ]} : Context)
   /\ eliminate_letrec_term (L3.Reference "f") {[ "f" ]}
      = L2.Load (L2.Reference "f") 0)
  /\ (("g" ∉ ({[ "f" ]} : Context))
      /\ eliminate_letrec_term (L3.Reference "g") {[ "f" ]}
         = L2.Reference "g").
Proof.
  assert ("f" ∈ ({[ "f" ]} : Context)) as Hf by compute_done.
  assert ("g" ∉ ({[ "f" ]} : Context)) as Hg by compute_done.
  split; split; [exact Hf| |exact Hg|].
  - exact (proj1 (eliminate_letrec_term_Reference "f" {[ "f" ]}) Hf).
  - exact (proj1 (proj2 (eliminate_letrec_term_Reference "g" {[ "f" ]})) Hg).
Defined.

(** C2. A [LetRec] is lowered to a [Let] that binds every binder name, in
    binding order, to [Allocate(1)], and whose body is a [Begin]: its effects
    are, in binding order, the stores of the lowered right-hand sides into
    slot 0 of the cells, its value is the lowered body; right-hand sides and
    body are lowered under the recursive-name set extended with all the binder
    names.  The self-referential [f] of the specification is lowered to
    exactly one allocation, one store and a body that loads the cell. *)
Theorem eliminate_letrec_term_LetRec :
  (forall (bindings : list (Identifier * L3.Term)) (body : L3.Term)
          (R : Context),
     let R' := R ∪ list_to_set bindings.*1 in
     eliminate_letrec_term (L3.LetRec bindings body) R
     = L2.Let ((fun b => (b.1, L2.Allocate 1)) <$> bindings)
         (L2.Begin
            ((fun b => L2.Store (L2.Reference b.1) 0
                         (eliminate_letrec_term b.2 R')) <$> bindings)
            (eliminate_letrec_term body R')))
  /\ eliminate_letrec_term
       (L3.LetRec
          [("f", L3.Abstract ["x"]
                   (L3.Apply (L3.Reference "f") [L3.Reference "x"]))]
          (L3.Apply (L3.Reference "f") [L3.Immediate 0])) ∅
     = L2.Let [("f", L2.Allocate 1)]
         (L2.Begin
            [L2.Store (L2.Reference "f") 0
               (L2.Abstract ["x"]
                  (L2.Apply (L2.Load (L2.Reference "f") 0)
                     [L2.Reference "x"]))]
            (L2.Apply (L2.Load (L2.Reference "f") 0) [L2.Immediate 0])).
Proof.
  split; [|vm_compute; reflexivity].
  intros bindings body R R'. simpl. rewrite binding_names. fold R'.
  f_equal; [|f_equal]; apply list_fmap_ext; by intros _ [? ?] _.
Qed.

(** C3. On every program the checker accepts, the eliminator returns a target
    program, with the same parameters, in whose tree no [LetRec] occurs. *)
Theorem eliminate_letrec_program_total (p : L3.Program) :
  check_program p = Ok ->
  exists q : L2.Program,
    eliminate_letrec_program p = q
    /\ L2.parameters q = L3.parameters p
    /\ Shape.program_contains_letrec (Shape.embed_program q) = false.
Proof.
  intros _. destruct p as [ps b].
  exists (L2.MkProgram ps (eliminate_letrec_term b ∅)).
  split; [reflexivity|]. split; [reflexivity|].
  apply eliminate_letrec_term_no_letrec.
Qed.

Lemma eliminate_letrec_program_total_witness :
  check_program
    (L3.MkProgram ["n"]
       (L3.LetRec
          [("loop", L3.Abstract ["i"]
                      (L3.Apply (L3.Reference "loop") [L3.Reference "i"]))]
          (L3.Apply (L3.Reference "loop") [L3.Reference "n"]))) = Ok
  /\ exists q : L2.Program,
       eliminate_letrec_program
         (L3.MkProgram ["n"]
            (L3.LetRec
               [("loop", L3.Abstract ["i"]
                           (L3.Apply (L3.Reference "loop")
                              [L3.Reference "i"]))]
               (L3.Apply (L3.Reference "loop") [L3.Reference "n"]))) = q
       /\ L2.parameters q = ["n"]
       /\ Shape.program_contains_letrec (Shape.embed_program q) = false.
Proof.
  split; [vm_compute; reflexivity|].
  apply (eliminate_letrec_program_total
           (L3.MkProgram ["n"]
              (L3.LetRec
                 [("loop", L3.Abstract ["i"]
                             (L3.Apply (L3.Reference "loop")
                                [L3.Reference "i"]))]
                 (L3.Apply (L3.Reference "loop") [L3.Reference "n"])))).
  vm_compute. reflexivity.
Defined.

(** C9. A term without [LetRec], lowered under the empty recursive-name set,
    gives the same tree in the target language: read back in the source
    language it is the input itself, variant by variant and field by field,
    sequences in the same order, and it holds a [Load] only where the input
    does.  The same holds for a program with such a body. *)
Theorem eliminate_letrec_term_preserves_shape (t : L3.Term) :
  Shape.contains_letrec t = false ->
  Shape.embed (eliminate_letrec_term t ∅) = t
  /\ Shape.contains_load (Shape.embed (eliminate_letrec_term t ∅))
     = Shape.contains_load t
  /\ forall parameters : list Identifier,
       Shape.embed_program
         (eliminate_letrec_program (L3.MkProgram parameters t))
       = L3.MkProgram parameters t.
Proof.
  intros H. apply eliminate_letrec_term_identity in H.
  split; [exact H|]. split; [by rewrite H|].
  intros ps. unfold Shape.embed_program; simpl. by rewrite H.
Qed.

Lemma eliminate_letrec_term_preserves_shape_witness :
  Shape.contains_letrec
    (L3.Let [("a", L3.Allocate 2); ("b", L3.Immediate 7)]
       (L3.Begin
          [L3.Store (L3.Reference "a") 0 (L3.Reference "b");
           L3.Store (L3.Reference "a") 1 (L3.Immediate 1)]
          (L3.Apply (L3.Abstract ["u"; "v"]
                       (L3.Primitive "+" (L3.Reference "u") (L3.Reference "v")))
             [L3.Load (L3.Reference "a") 0; L3.Load (L3.Reference "a") 1])))
  = false
  /\ Shape.embed
       (eliminate_letrec_term
          (L3.Let [("a", L3.Allocate 2); ("b", L3.Immediate 7)]
             (L3.Begin
                [L3.Store (L3.Reference "a") 0 (L3.Reference "b");
                 L3.Store (L3.Reference "a") 1 (L3.Immediate 1)]
                (L3.Apply (L3.Abstract ["u"; "v"]
                             (L3.Primitive "+" (L3.Reference "u")
                                (L3.Reference "v")))
                   [L3.Load (L3.Reference "a") 0;
                    L3.Load (L3.Reference "a") 1]))) ∅)
     = L3.Let [("a", L3.Allocate 2); ("b", L3.Immediate 7)]
         (L3.Begin
            [L3.Store (L3.Reference "a") 0 (L3.Reference "b");
             L3.Store (L3.Reference "a") 1 (L3.Immediate 1)]
            (L3.Apply (L3.Abstract ["u"; "v"]
                         (L3.Primitive "+" (L3.Reference "u")
                            (L3.Reference "v")))
               [L3.Load (L3.Reference "a") 0; L3.Load (L3.Reference "a") 1])).
Proof.
  split; [vm_compute; reflexivity|].
  apply (eliminate_letrec_term_preserves_shape
           (L3.Let [("a", L3.Allocate 2); ("b", L3.Immediate 7)]
              (L3.Begin
                 [L3.Store (L3.Reference "a") 0 (L3.Reference "b");
                  L3.Store (L3.Reference "a") 1 (L3.Immediate 1)]
                 (L3.Apply (L3.Abstract ["u"; "v"]
                              (L3.Primitive "+" (L3.Reference "u")
                                 (L3.Reference "v")))
                    [L3.Load (L3.Reference "a") 0;
                     L3.Load (L3.Reference "a") 1])))).
  vm_compute. reflexivity.
Defined.

(** C10. Entering an [Abstract] leaves the recursive-name set as it is, also
    when one of the parameters is in it: the body is lowered under the same
    set, every reference to such a parameter [n] comes out as a load of slot 0
    of a cell (no plain reference to [n] is left), and
    [Abstract([n], Reference(n))] under [{n}] is lowered to
    [Abstract([n], Load(Reference(n), 0))]. *)
Theorem eliminate_letrec_term_Abstract_parameter
    (R : Context) (parameters : list Identifier) (body : L3.Term)
    (n : Identifier) :
  n ∈ parameters -> n ∈ R ->
  eliminate_letrec_term (L3.Abstract parameters body) R
  = L2.Abstract parameters (eliminate_letrec_term body R)
  /\ (n ∉ Shape.plain_references
           (eliminate_letrec_term (L3.Abstract parameters body) R))
  /\ eliminate_letrec_term (L3.Abstract parameters (L3.Reference n)) R
     = L2.Abstract parameters (L2.Load (L2.Reference n) 0).
Proof.
  intros _ Hn. split; [reflexivity|]. split.
  - by apply eliminate_letrec_term_dereferences.
  - simpl. by rewrite decide_True.
Qed.

Lemma eliminate_letrec_term_Abstract_parameter_witness :
  "n" ∈ ["n"] /\ "n" ∈ ({[ "n" ]} : Context)
  /\ eliminate_letrec_term (L3.Abstract ["n"] (L3.Reference "n")) {[ "n" ]}
     = L2.Abstract ["n"] (L2.Load (L2.Reference "n") 0).
Proof.
  assert ("n" ∈ ["n"]) as Hparam by compute_done.
  assert ("n" ∈ ({[ "n" ]} : Context)) as Hrec by compute_done.
  split; [exact Hparam|]. split; [exact Hrec|].
  exact (proj2 (proj2 (eliminate_letrec_term_Abstract_parameter
                         {[ "n" ]} ["n"] (L3.Reference "n") "n"
                         Hparam Hrec))).
Defined.

(** * Further properties of the scope checker *)

(** ** What the counter holds *)

Lemma occurrences_cons (k n : Identifier) (names : list Identifier) :
  occurrences k (n :: names)
  = ((if decide (n = k) then 1 else 0) + occurrences k names)%nat.
Proof.
  unfold occurrences. rewrite filter_cons.
  by destruct (decide (n = k)).
Qed.

Lemma occurrences_app (k : Identifier) (l1 l2 : list Identifier) :
  occurrences k (l1 ++ l2) = (occurrences k l1 + occurrences k l2)%nat.
Proof. unfold occurrences. by rewrite filter_app, length_app. Qed.

Lemma getitem_increment (n k : Identifier) (counts : list (Identifier * nat)) :
  getitem (increment n counts) k
  = (getitem counts k + (if decide (n = k) then 1 else 0))%nat.
Proof.
  induction counts as [|[k' c] rest IH]; simpl.
  - destruct (decide (n = k)); reflexivity.
  - destruct (decide (k' = n)) as [->|Hne]; simpl.
    + destruct (decide (n = k)); lia.
    + destruct (decide (k' = k)) as [->|Hk]; [|exact IH].
      rewrite decide_False by congruence. lia.
Qed.

Lemma increment_NoDup (n : Identifier) (counts : list (Identifier * nat)) :
  NoDup counts.*1 -> NoDup (increment n counts).*1.
Proof.
  induction counts as [|[k c] rest IH]; simpl; intros Hnd.
  - apply NoDup_singleton.
  - destruct (decide (k = n)) as [->|Hne]; simpl; [exact Hnd|].
    apply NoDup_cons in Hnd as [Hk Hrest]. apply NoDup_cons. split; [|auto].
    rewrite increment_keys. intros [?|?]; [congruence|done].
Qed.

Lemma getitem_elem_of (counts : list (Identifier * nat)) (k : Identifier)
    (c : nat) :
  NoDup counts.*1 -> (k, c) ∈ counts -> getitem counts k = c.
Proof.
  induction counts as [|[k' c'] rest IH]; simpl; intros Hnd Hin.
  - by apply elem_of_nil in Hin.
  - apply NoDup_cons in Hnd as [Hk Hrest].
    apply elem_of_cons in Hin as [Heq|Hin].
    + injection Heq as -> ->. by rewrite decide_True.
    + destruct (decide (k' = k)) as [->|Hne]; [|by apply IH].
      destruct Hk. apply list_elem_of_fmap. by exists (k, c).
Qed.

Lemma elem_of_getitem (counts : list (Identifier * nat)) (k : Identifier) :
  (0 < getitem counts k)%nat -> (k, getitem counts k) ∈ counts.
Proof.
  induction counts as [|[k' c'] rest IH]; simpl; intros Hpos; [lia|].
  destruct (decide (k' = k)) as [->|Hne].
  - apply list_elem_of_here.
  - apply list_elem_of_further. by apply IH.
Qed.

Lemma foldl_increment_getitem (names : list Identifier) :
  forall (counts : list (Identifier * nat)) (k : Identifier),
  getitem (foldl (fun counts name => increment name counts) counts names) k
  = (getitem counts k + occurrences k names)%nat.
Proof.
  induction names as [|n names IH]; intros counts k; simpl.
  - unfold occurrences. simpl. lia.
  - rewrite IH, getitem_increment, occurrences_cons. lia.
Qed.

Lemma foldl_increment_NoDup (names : list Identifier) :
  forall counts : list (Identifier * nat),
  NoDup counts.*1 ->
  NoDup (foldl (fun counts name => increment name counts) counts names).*1.
Proof.
  induction names as [|n names IH]; intros counts Hnd; simpl; [done|].
  by apply IH, increment_NoDup.
Qed.

Lemma foldl_increment_positive (names : list Identifier) :
  forall counts : list (Identifier * nat),
  Forall positive counts ->
  Forall positive
    (foldl (fun counts name => increment name counts) counts names).
Proof.
  induction names as [|n names IH]; intros counts Hpos; simpl; [done|].
  by apply IH, increment_positive.
Qed.

Lemma Counter_NoDup (names : list Identifier) : NoDup (Counter names).*1.
Proof. apply foldl_increment_NoDup. constructor. Qed.

Lemma Counter_getitem (names : list Identifier) (k : Identifier) :
  getitem (Counter names) k = occurrences k names.
Proof. unfold Counter. by rewrite foldl_increment_getitem. Qed.

Lemma Counter_items (names : list Identifier) (k : Identifier) (c : nat) :
  (k, c) ∈ Counter names <-> c = occurrences k names /\ (0 < c)%nat.
Proof.
  split.
  - intros Hin. split.
    + rewrite <- Counter_getitem. symmetry.
      by apply getitem_elem_of; [apply Counter_NoDup|].
    + assert (Forall positive (Counter names)) as Hpos
        by (apply foldl_increment_positive; constructor).
      rewrite Forall_forall in Hpos. exact (Hpos _ Hin).
  - intros [-> Hpos]. rewrite <- Counter_getitem in *.
    by apply elem_of_getitem.
Qed.

Lemma duplicate_counts_items (names : list Identifier) (k : Identifier)
    (c : nat) :
  (k, c) ∈ duplicate_counts (Counter names)
  <-> c = occurrences k names /\ (1 < c)%nat.
Proof.
  unfold duplicate_counts. rewrite list_elem_of_filter, Counter_items.
  unfold repeated; simpl. lia.
Qed.

Lemma duplicate_names_elem_of (names : list Identifier) (k : Identifier) :
  k ∈ duplicate_names (Counter names) <-> (1 < occurrences k names)%nat.
Proof.
  unfold duplicate_names. rewrite elem_of_list_to_set, list_elem_of_fmap.
  split.
  - intros ([k' c] & -> & Hin). apply duplicate_counts_items in Hin. simpl. lia.
  - intros Hk. exists (k, occurrences k names). split; [done|].
    by apply duplicate_counts_items.
Qed.

(** ** Loops that raise *)

Lemma for_each_Raise {A : Type} (f : A -> result) (l : list A)
    (e : ValueError) :
  for_each f l = Raise e -> exists x, x ∈ l /\ f x = Raise e.
Proof.
  induction l as [|x l IH]; simpl; [discriminate|].
  destruct (f x) as [|e'] eqn:Hx; simpl.
  - intros H. destruct (IH H) as (y & Hy & Hfy).
    exists y. split; [by apply list_elem_of_further|done].
  - intros [= ->]. exists x. split; [apply list_elem_of_here|done].
Qed.

Lemma and_then_Raise (r k : result) (e : ValueError) :
  (r ;; k) = Raise e -> r = Raise e \/ (r = Ok /\ k = Raise e).
Proof. destruct r; simpl; auto. Qed.

Lemma elem_of_flat_map {A : Type} (f : A -> list Identifier) (l : list A)
    (n : Identifier) :
  n ∈ flat_map f l <-> exists x, x ∈ l /\ n ∈ f x.
Proof.
  rewrite list_elem_of_In, in_flat_map.
  split; intros (x & Hx & Hn); exists x;
    by rewrite ?list_elem_of_In in *.
Qed.

Lemma existsb_true {A : Type} (f : A -> bool) (l : list A) :
  existsb f l = true <-> exists x, x ∈ l /\ f x = true.
Proof.
  rewrite existsb_exists.
  split; intros (x & Hx & Hn); exists x; by rewrite ?list_elem_of_In in *.
Qed.

(** ** Every violation the checker reports is a real one *)

Lemma unbound_references_not_visible (t : L3.Term) (n : Identifier) :
  forall C : Context, n ∈ Scope.unbound_references t C -> n ∉ C.
Proof.
  induction t as
    [bs b IHbs IHb | bs b IHbs IHb | m | ps b IHb | f args IHf IHargs | v
    | o l r IHl IHr | o l r c e IHl IHr IHc IHe | c | b i IHb
    | b i v IHb IHv | es v IHes IHv] using L3.Term_nested_ind;
    intros C; simpl; rewrite ?elem_of_app, ?elem_of_flat_map.
  - rewrite Forall_forall in IHbs.
    intros [([k v] & Hin & Hn)|Hn]; [by eapply (IHbs _ Hin)|].
    apply IHb in Hn. set_solver.
  - rewrite Forall_forall in IHbs.
    intros [([k v] & Hin & Hn)|Hn];
      [apply (IHbs _ Hin) in Hn|apply IHb in Hn]; set_solver.
  - case_decide; [by intros ?%elem_of_nil|].
    by intros ->%list_elem_of_singleton.
  - intros Hn. apply IHb in Hn. set_solver.
  - rewrite Forall_forall in IHargs.
    intros [Hn|(a & Hin & Hn)]; [by apply IHf|by eapply (IHargs _ Hin)].
  - by intros ?%elem_of_nil.
  - intros [?|?]; [by apply IHl|by apply IHr].
  - intros [?|[?|[?|?]]];
      [by apply IHl|by apply IHr|by apply IHc|by apply IHe].
  - by intros ?%elem_of_nil.
  - apply IHb.
  - intros [?|?]; [by apply IHb|by apply IHv].
  - rewrite Forall_forall in IHes.
    intros [(a & Hin & Hn)|Hn]; [by eapply (IHes _ Hin)|by apply IHv].
Qed.

Lemma duplicate_counts_repeated (counts : list (Identifier * nat)) :
  Forall repeated (duplicate_counts counts).
Proof.
  apply Forall_forall. intros nc Hin.
  unfold duplicate_counts in Hin. by apply list_elem_of_filter in Hin as [? _].
Qed.

Lemma repeats_duplicate_counts (names : list Identifier) :
  Scope.repeats names = true -> duplicate_counts (Counter names) <> [].
Proof.
  intros Hr H. apply duplicate_counts_nil, repeats_false in H. congruence.
Qed.

Lemma repeats_duplicate_names (names : list Identifier) :
  Scope.repeats names = true -> duplicate_names (Counter names) <> ∅.
Proof.
  intros Hr H. apply duplicate_names_empty, repeats_false in H. congruence.
Qed.

Lemma check_term_Raise_real (t : L3.Term) :
  forall (C : Context) (e : ValueError),
  check_term t C = Raise e ->
  match e with
  | unknown_variable n => n ∈ Scope.unbound_references t C
  | duplicate_binders d =>
      d <> [] /\ Forall repeated d /\ Scope.repeats_binder t = true
  | duplicate_parameters s => s <> ∅ /\ Scope.repeats_binder t = true
  end.
Proof.
  induction t as
    [bs b IHbs IHb | bs b IHbs IHb | m | ps b IHb | f args IHf IHargs | v
    | o l r IHl IHr | o l r c e' IHl IHr IHc IHe | c | b i IHb
    | b i v IHb IHv | es v IHes IHv] using L3.Term_nested_ind;
    intros C e;
    rewrite ?check_term_Let, ?check_term_LetRec, ?check_term_Abstract;
    cbn [check_term Scope.repeats_binder Scope.unbound_references].
  - destruct (Scope.repeats bs.*1) eqn:Hr.
    + intros [= <-]. split; [by apply repeats_duplicate_counts|].
      split; [apply duplicate_counts_repeated|done].
    + rewrite Forall_forall in IHbs.
      intros [H|[_ H]]%and_then_Raise.
      * apply for_each_Raise in H as ([k v] & Hin & H).
        apply (IHbs _ Hin) in H. simpl in H.
        destruct e as [n|d|s].
        -- apply elem_of_app. left. apply elem_of_flat_map. by exists (k, v).
        -- destruct H as (? & ? & H). repeat split; [done..|].
           simpl. apply orb_true_iff. left. apply existsb_true.
           by exists (k, v).
        -- destruct H as (? & H). split; [done|].
           simpl. apply orb_true_iff. left. apply existsb_true.
           by exists (k, v).
      * apply IHb in H. destruct e as [n|d|s].
        -- apply elem_of_app. by right.
        -- destruct H as (? & ? & ->). by rewrite orb_true_r.
        -- destruct H as (? & ->). by rewrite orb_true_r.
  - destruct (Scope.repeats bs.*1) eqn:Hr.
    + intros [= <-]. split; [by apply repeats_duplicate_counts|].
      split; [apply duplicate_counts_repeated|done].
    + rewrite Forall_forall in IHbs.
      intros [H|[_ H]]%and_then_Raise.
      * apply for_each_Raise in H as ([k v] & Hin & H).
        apply (IHbs _ Hin) in H. simpl in H.
        destruct e as [n|d|s].
        -- apply elem_of_app. left. apply elem_of_flat_map. by exists (k, v).
        -- destruct H as (? & ? & H). repeat split; [done..|].
           simpl. apply orb_true_iff. left. apply existsb_true.
           by exists (k, v).
        -- destruct H as (? & H). split; [done|].
           simpl. apply orb_true_iff. left. apply existsb_true.
           by exists (k, v).
      * apply IHb in H. destruct e as [n|d|s].
        -- apply elem_of_app. by right.
        -- destruct H as (? & ? & ->). by rewrite orb_true_r.
        -- destruct H as (? & ->). by rewrite orb_true_r.
  - destruct (decide (m ∉ C)) as [Hm|Hm]; [|discriminate].
    intros [= <-]. rewrite decide_False by done. apply list_elem_of_here.
  - destruct (Scope.repeats ps) eqn:Hr.
    + intros [= <-]. split; [by apply repeats_duplicate_names|done].
    + intros H. apply IHb in H. by destruct e.
  - rewrite Forall_forall in IHargs.
    intros [H|[_ H]]%and_then_Raise.
    + apply IHf in H. destruct e as [n|d|s].
      * apply elem_of_app. by left.
      * destruct H as (? & ? & ->). done.
      * destruct H as (? & ->). done.
    + apply for_each_Raise in H as (a & Hin & H).
      apply (IHargs _ Hin) in H.
      destruct e as [n|d|s].
      * apply elem_of_app. right. apply elem_of_flat_map. by exists a.
      * destruct H as (? & ? & H). repeat split; [done..|].
        apply orb_true_iff. right. apply existsb_true. by exists a.
      * destruct H as (? & H). split; [done|].
        apply orb_true_iff. right. apply existsb_true. by exists a.
  - discriminate.
  - intros [H|[_ H]]%and_then_Raise; [apply IHl in H|apply IHr in H];
      destruct e as [n|d|s]; rewrite ?elem_of_app;
      [tauto| |  |tauto| | ];
      [destruct H as (? & ? & ->)|destruct H as (? & ->)
      |destruct H as (? & ? & ->)|destruct H as (? & ->)];
      rewrite ?orb_true_r; done.
  - intros [H|[_ [H|[_ [H|[_ H]]%and_then_Raise]]%and_then_Raise]]%and_then_Raise;
      [apply IHl in H|apply IHr in H|apply IHc in H|apply IHe in H];
      destruct e as [n|d|s]; rewrite ?elem_of_app; try tauto;
      try (destruct H as (? & ? & ->)); try (destruct H as (? & ->));
      rewrite ?orb_true_r; done.
  - discriminate.
  - apply IHb.
  - intros [H|[_ H]]%and_then_Raise; [apply IHb in H|apply IHv in H];
      destruct e as [n|d|s]; rewrite ?elem_of_app; try tauto;
      try (destruct H as (? & ? & ->)); try (destruct H as (? & ->));
      rewrite ?orb_true_r; done.
  - rewrite Forall_forall in IHes.
    intros [H|[_ H]]%and_then_Raise.
    + apply for_each_Raise in H as (a & Hin & H).
      apply (IHes _ Hin) in H.
      destruct e as [n|d|s].
      * apply elem_of_app. left. apply elem_of_flat_map. by exists a.
      * destruct H as (? & ? & H). repeat split; [done..|].
        apply orb_true_iff. left. apply existsb_true. by exists a.
      * destruct H as (? & H). split; [done|].
        apply orb_true_iff. left. apply existsb_true. by exists a.
    + apply IHv in H. destruct e as [n|d|s].
      * apply elem_of_app. by right.
      * destruct H as (? & ? & ->). by rewrite orb_true_r.
      * destruct H as (? & ->). by rewrite orb_true_r.
Qed.

(** ** A larger context accepts more *)

Lemma check_term_weaken (t : L3.Term) : forall C C' : Context,
  C ⊆ C' -> check_term t C = Ok -> check_term t C' = Ok.
Proof.
  induction t as
    [bs b IHbs IHb | bs b IHbs IHb | m | ps b IHb | f args IHf IHargs | v
    | o l r IHl IHr | o l r c e IHl IHr IHc IHe | c | b i IHb
    | b i v IHb IHv | es v IHes IHv] using L3.Term_nested_ind;
    intros C C' Hsub;
    rewrite ?check_term_Let, ?check_term_LetRec, ?check_term_Abstract;
    cbn [check_term];
    try destruct (Scope.repeats _) eqn:Hr; try discriminate;
    rewrite ?and_then_Ok, ?for_each_Ok; try done.
  - intros [Hbs Hb]. split.
    + eapply Forall_impl2; [exact IHbs|exact Hbs|].
      intros [k v] IH Hv. by eapply IH.
    + eapply IHb; [|exact Hb]. set_solver.
  - intros [Hbs Hb].
    assert (C ∪ list_to_set bs.*1 ⊆ C' ∪ list_to_set bs.*1) by set_solver.
    split.
    + eapply Forall_impl2; [exact IHbs|exact Hbs|].
      intros [k v] IH Hv. by eapply IH.
    + by eapply IHb.
  - destruct (decide (m ∉ C)); [discriminate|]. intros _.
    rewrite decide_False; [done|]. set_solver.
  - apply IHb. set_solver.
  - intros [Hf Hargs]. split; [by eapply IHf|].
    eapply Forall_impl2; [exact IHargs|exact Hargs|].
    intros a IH Ha. by eapply IH.
  - intros [? ?]. split; [by eapply IHl|by eapply IHr].
  - intros (? & ? & ? & ?).
    repeat split; [by eapply IHl|by eapply IHr|by eapply IHc|by eapply IHe].
  - by apply IHb.
  - intros [? ?]. split; [by eapply IHb|by eapply IHv].
  - intros [Hes Hv]. split; [|by eapply IHv].
    eapply Forall_impl2; [exact IHes|exact Hes|].
    intros a IH Ha. by eapply IH.
Qed.

(** ** The checker on lowered terms *)

Lemma for_each_fmap {A B : Type} (f : B -> result) (g : A -> B)
    (l : list A) :
  for_each f (g <$> l) = for_each (fun x => f (g x)) l.
Proof. induction l as [|x l IH]; simpl; [done|]. f_equal. exact IH. Qed.

Lemma for_each_all_Ok {A : Type} (l : list A) :
  for_each (fun _ => Ok) l = Ok.
Proof. induction l as [|x l IH]; simpl; done. Qed.

Lemma binding_names_fmap {A B : Type} (g : A -> B)
    (bindings : list (Identifier * A)) :
  ((fun '(name, value) => (name, g value)) <$> bindings).*1 = bindings.*1.
Proof.
  rewrite <- list_fmap_compose. apply list_fmap_ext. by intros _ [? ?] _.
Qed.

Lemma binding_names_const {A B : Type} (c : B)
    (bindings : list (Identifier * A)) :
  ((fun '(name, _) => (name, c)) <$> bindings).*1 = bindings.*1.
Proof.
  rewrite <- list_fmap_compose. apply list_fmap_ext. by intros _ [? ?] _.
Qed.

Lemma binder_visible (bindings : list (Identifier * L3.Term)) (C : Context) :
  Forall (fun b => b.1 ∈ C ∪ list_to_set bindings.*1) bindings.
Proof.
  apply Forall_forall. intros [k v] Hin. simpl.
  apply elem_of_union_r, elem_of_list_to_set, list_elem_of_fmap.
  by exists (k, v).
Qed.

Lemma check_term_eliminate (t : L3.Term) : forall R C : Context,
  check_term (Shape.embed (eliminate_letrec_term t R)) C = check_term t C.
Proof.
  induction t as
    [bs b IHbs IHb | bs b IHbs IHb | m | ps b IHb | f args IHf IHargs | v
    | o l r IHl IHr | o l r c e IHl IHr IHc IHe | c | b i IHb
    | b i v IHb IHv | es v IHes IHv] using L3.Term_nested_ind;
    intros R C;
    cbn [eliminate_letrec_term Shape.embed];
    rewrite ?check_term_Let, ?check_term_LetRec, ?check_term_Abstract;
    cbn [check_term];
    rewrite ?IHb, ?IHf, ?IHl, ?IHr, ?IHc, ?IHe, ?IHv; try reflexivity.
  - rewrite !binding_names_fmap.
    destruct (Scope.repeats bs.*1); [done|]. f_equal.
    rewrite !for_each_fmap. apply for_each_ext.
    eapply Forall_impl; [exact IHbs|]. intros [k v] IH. apply IH.
  - rewrite binding_names_fmap, binding_names_const.
    destruct (Scope.repeats bs.*1); [done|].
    rewrite !for_each_fmap.
    rewrite (for_each_ext _ (fun _ => Ok))
      by (apply Forall_true; by intros [? ?]).
    rewrite for_each_all_Ok. cbn [and_then]. f_equal.
    apply for_each_ext.
    eapply Forall_impl2; [exact IHbs|apply (binder_visible bs C)|].
    intros [k v] IH Hk. cbn [Shape.embed check_term fst snd] in *.
    rewrite decide_False by (intros Hn; by apply Hn). cbn [and_then].
    apply IH.
  - case_decide; reflexivity.
  - f_equal. rewrite !for_each_fmap. apply for_each_ext.
    eapply Forall_impl; [exact IHargs|]. intros a IH. apply IH.
  - f_equal. rewrite !for_each_fmap. apply for_each_ext.
    eapply Forall_impl; [exact IHes|]. intros a IH. apply IH.
Qed.

(** ** The order of a binding list *)

Lemma occurrences_Permutation (k : Identifier) (l1 l2 : list Identifier) :
  l1 ≡ₚ l2 -> occurrences k l1 = occurrences k l2.
Proof. unfold occurrences. by intros ->. Qed.

Lemma duplicate_names_Permutation (l1 l2 : list Identifier) :
  l1 ≡ₚ l2 -> duplicate_names (Counter l1) = duplicate_names (Counter l2).
Proof.
  intros Hperm. apply set_eq. intros k.
  by rewrite !duplicate_names_elem_of, (occurrences_Permutation k l1 l2).
Qed.

Lemma repeats_Permutation (l1 l2 : list Identifier) :
  l1 ≡ₚ l2 -> Scope.repeats l1 = Scope.repeats l2.
Proof.
  intros Hperm. unfold Scope.repeats. apply bool_decide_ext.
  by rewrite Hperm.
Qed.

Lemma list_to_set_Permutation (l1 l2 : list Identifier) :
  l1 ≡ₚ l2 -> (list_to_set l1 : gset Identifier) = list_to_set l2.
Proof. intros Hperm. apply set_eq. intros k. by rewrite !elem_of_list_to_set, Hperm. Qed.

(** ** Lowering a term of the target language *)

Lemma eliminate_letrec_term_embed (u : L2.Term) :
  eliminate_letrec_term (Shape.embed u) ∅ = u.
Proof.
  induction u as
    [bs b IHbs IHb | n | ps b IHb | f args IHf IHargs | v
    | o l r IHl IHr | o l r c e IHl IHr IHc IHe | c | b i IHb
    | b i v IHb IHv | es v IHes IHv] using L2.Term_nested_ind;
    simpl; rewrite ?IHb, ?IHf, ?IHl, ?IHr, ?IHc, ?IHe, ?IHv;
    try reflexivity.
  - f_equal. rewrite <- list_fmap_compose. rewrite <- (list_fmap_id bs) at 2.
    apply Forall_fmap_ext. eapply Forall_impl; [exact IHbs|].
    intros [k v] IH; simpl in *. by rewrite IH.
  - f_equal. rewrite <- list_fmap_compose. rewrite <- (list_fmap_id args) at 2.
    apply Forall_fmap_ext. eapply Forall_impl; [exact IHargs|].
    intros a IH; simpl. exact IH.
  - f_equal. rewrite <- list_fmap_compose. rewrite <- (list_fmap_id es) at 2.
    apply Forall_fmap_ext. eapply Forall_impl; [exact IHes|].
    intros a IH; simpl. exact IH.
Qed.

(** ** Only the names a term refers to matter *)

Lemma Forall_flat_map {A : Type} (P : Identifier -> Prop)
    (f : A -> list Identifier) (l : list A) :
  Forall P (flat_map f l) <-> Forall (fun x => Forall P (f x)) l.
Proof.
  induction l as [|x l IH]; simpl.
  - split; constructor.
  - by rewrite Forall_app, Forall_cons, IH.
Qed.

Lemma eliminate_letrec_term_relevant (t : L3.Term) : forall R R' : Context,
  Forall (fun n => n ∈ R <-> n ∈ R') (Shape.references t) ->
  eliminate_letrec_term t R = eliminate_letrec_term t R'.
Proof.
  induction t as
    [bs b IHbs IHb | bs b IHbs IHb | m | ps b IHb | f args IHf IHargs | v
    | o l r IHl IHr | o l r c e IHl IHr IHc IHe | c | b i IHb
    | b i v IHb IHv | es v IHes IHv] using L3.Term_nested_ind;
    intros R R'; simpl; try reflexivity.
  - rewrite Forall_app, Forall_flat_map.
    intros [Hbs Hb]. f_equal; [|by apply IHb].
    apply Forall_fmap_ext. eapply Forall_impl2; [exact IHbs|exact Hbs|].
    intros [k v] IH Hv; simpl in *. f_equal. by apply IH.
  - rewrite Forall_app, Forall_flat_map. intros [Hbs Hb].
    assert (forall l : list Identifier,
              Forall (fun n => n ∈ R <-> n ∈ R') l ->
              Forall (fun n => n ∈ R ∪ fromkeys ((fun '(name, _) => name) <$> bs)
                               <-> n ∈ R' ∪ fromkeys ((fun '(name, _) => name) <$> bs)) l)
      as Hext.
    { intros l Hl. eapply Forall_impl; [exact Hl|].
      intros n Hn. cbv beta in Hn. rewrite !elem_of_union, Hn. tauto. }
    f_equal. f_equal; [|by apply IHb, Hext].
    apply Forall_fmap_ext. eapply Forall_impl2; [exact IHbs|exact Hbs|].
    intros [k v] IH Hv; simpl in *. f_equal. by apply IH, Hext.
  - intros Hm. rewrite Forall_singleton in Hm.
    destruct (decide (m ∈ R)), (decide (m ∈ R')); try reflexivity; tauto.
  - intros Hb. f_equal. by apply IHb.
  - rewrite Forall_app, Forall_flat_map.
    intros [Hf Hargs]. f_equal; [by apply IHf|].
    apply Forall_fmap_ext. eapply Forall_impl2; [exact IHargs|exact Hargs|].
    intros a IH Ha. by apply IH.
  - rewrite Forall_app. intros [? ?]. f_equal; [by apply IHl|by apply IHr].
  - rewrite !Forall_app. intros (? & ? & ? & ?).
    f_equal; [by apply IHl|by apply IHr|by apply IHc|by apply IHe].
  - intros Hb. f_equal. by apply IHb.
  - rewrite Forall_app. intros [? ?]. f_equal; [by apply IHb|by apply IHv].
  - rewrite Forall_app, Forall_flat_map.
    intros [Hes Hv]. f_equal; [|by apply IHv].
    apply Forall_fmap_ext. eapply Forall_impl2; [exact IHes|exact Hes|].
    intros a IH Ha. by apply IH.
Qed.

(** ** One cell and one store for each recursive binding *)

Lemma sum_list_fmap_add {A : Type} (f g h : A -> nat) (l : list A) :
  Forall (fun x => f x = (g x + h x)%nat) l ->
  sum_list (f <$> l) = (sum_list (g <$> l) + sum_list (h <$> l))%nat.
Proof.
  induction 1 as [|x l Hx _ IH]; [done|].
  rewrite !fmap_cons. cbn [sum_list_with id]. rewrite Hx, IH. lia.
Qed.

Lemma sum_list_fmap_const {A : Type} (c : nat) (l : list A) :
  sum_list ((fun _ => c) <$> l) = (length l * c)%nat.
Proof.
  induction l as [|x l IH]; [done|].
  rewrite fmap_cons. cbn [sum_list_with length id]. rewrite IH. lia.
Qed.

Lemma sum_list_fmap_ext {A : Type} (f g : A -> nat) (l : list A) :
  Forall (fun x => f x = g x) l -> sum_list (f <$> l) = sum_list (g <$> l).
Proof.
  induction 1 as [|x l Hx _ IH]; [done|].
  rewrite !fmap_cons. cbn [sum_list_with id]. by rewrite Hx, IH.
Qed.

Section Sums.
Context (cnt : L3.Term -> nat) (g : L3.Term -> L2.Term).

Lemma sum_list_lowered_bindings (bs : list (Identifier * L3.Term)) :
  sum_list ((fun '(_, value) => cnt value)
              <$> ((fun '(name, value) => (name, Shape.embed value))
                     <$> ((fun '(name, value) => (name, g value)) <$> bs)))
  = sum_list ((fun b => cnt (Shape.embed (g b.2))) <$> bs).
Proof.
  rewrite <- !list_fmap_compose. apply sum_list_fmap_ext, Forall_true.
  by intros [? ?].
Qed.

Lemma sum_list_lowered_terms (l : list L3.Term) :
  sum_list (cnt <$> (Shape.embed <$> (g <$> l)))
  = sum_list ((fun a => cnt (Shape.embed (g a))) <$> l).
Proof.
  rewrite <- !list_fmap_compose. by apply sum_list_fmap_ext, Forall_true.
Qed.

Lemma sum_list_cells (bs : list (Identifier * L3.Term)) :
  sum_list ((fun '(_, value) => cnt value)
              <$> ((fun '(name, value) => (name, Shape.embed value))
                     <$> ((fun '(name, _) => (name, L2.Allocate 1)) <$> bs)))
  = (length bs * cnt (L3.Allocate 1))%nat.
Proof.
  rewrite <- !list_fmap_compose, <- sum_list_fmap_const.
  apply sum_list_fmap_ext, Forall_true. by intros [? ?].
Qed.

Lemma sum_list_stores (bs : list (Identifier * L3.Term)) :
  sum_list (cnt <$> (Shape.embed
                       <$> ((fun '(name, value) =>
                               L2.Store (L2.Reference name) 0 (g value))
                              <$> bs)))
  = sum_list ((fun b => cnt (L3.Store (L3.Reference b.1) 0
                               (Shape.embed (g b.2)))) <$> bs).
Proof.
  rewrite <- !list_fmap_compose. apply sum_list_fmap_ext, Forall_true.
  by intros [? ?].
Qed.
End Sums.

Lemma sum_list_values (cnt : L3.Term -> nat)
    (bs : list (Identifier * L3.Term)) :
  sum_list ((fun '(_, value) => cnt value) <$> bs)
  = sum_list ((fun b => cnt b.2) <$> bs).
Proof. apply sum_list_fmap_ext, Forall_true. by intros [? ?]. Qed.

Lemma eliminate_letrec_term_counts (t : L3.Term) : forall R : Context,
  Shape.count_allocate (Shape.embed (eliminate_letrec_term t R))
  = (Shape.count_allocate t + Shape.count_letrec_bindings t)%nat
  /\ Shape.count_store (Shape.embed (eliminate_letrec_term t R))
     = (Shape.count_store t + Shape.count_letrec_bindings t)%nat.
Proof.
  induction t as
    [bs b IHbs IHb | bs b IHbs IHb | m | ps b IHb | f args IHf IHargs | v
    | o l r IHl IHr | o l r c e IHl IHr IHc IHe | c | b i IHb
    | b i v IHb IHv | es v IHes IHv] using L3.Term_nested_ind;
    intros R; simpl.
  - destruct (IHb R) as [-> ->].
    rewrite !sum_list_lowered_bindings, !sum_list_values.
    rewrite (sum_list_fmap_add
               (fun b => Shape.count_allocate
                           (Shape.embed (eliminate_letrec_term b.2 R)))
               (fun b => Shape.count_allocate b.2)
               (fun b => Shape.count_letrec_bindings b.2))
      by (eapply Forall_impl; [exact IHbs|]; intros ? IH; apply IH).
    rewrite (sum_list_fmap_add
               (fun b => Shape.count_store
                           (Shape.embed (eliminate_letrec_term b.2 R)))
               (fun b => Shape.count_store b.2)
               (fun b => Shape.count_letrec_bindings b.2))
      by (eapply Forall_impl; [exact IHbs|]; intros ? IH; apply IH).
    lia.
  - set (R' := R ∪ fromkeys ((fun '(name, _) => name) <$> bs)).
    destruct (IHb R') as [-> ->].
    rewrite !sum_list_cells, !sum_list_stores, !sum_list_values.
    cbn [Shape.count_allocate Shape.count_store].
    rewrite (sum_list_fmap_add
               (fun b => (0 + Shape.count_allocate
                                (Shape.embed (eliminate_letrec_term b.2 R')))%nat)
               (fun b => Shape.count_allocate b.2)
               (fun b => Shape.count_letrec_bindings b.2))
      by (eapply Forall_impl; [exact IHbs|]; intros ? IH; apply IH).
    rewrite (sum_list_fmap_add
               (fun b => (1 + 0 + Shape.count_store
                                (Shape.embed (eliminate_letrec_term b.2 R')))%nat)
               (fun b => S (Shape.count_store b.2))
               (fun b => Shape.count_letrec_bindings b.2))
      by (eapply Forall_impl; [exact IHbs|]; intros ? IH; simpl;
          f_equal; apply IH).
    rewrite (sum_list_fmap_add
               (fun b => S (Shape.count_store b.2))
               (fun _ => 1%nat)
               (fun b => Shape.count_store b.2))
      by (by apply Forall_true).
    rewrite !sum_list_fmap_const. lia.
  - case_decide; simpl; lia.
  - apply IHb.
  - destruct (IHf R) as [-> ->]. rewrite !sum_list_lowered_terms.
    rewrite (sum_list_fmap_add
               (fun a => Shape.count_allocate
                           (Shape.embed (eliminate_letrec_term a R)))
               Shape.count_allocate Shape.count_letrec_bindings)
      by (eapply Forall_impl; [exact IHargs|]; intros ? IH; apply IH).
    rewrite (sum_list_fmap_add
               (fun a => Shape.count_store
                           (Shape.embed (eliminate_letrec_term a R)))
               Shape.count_store Shape.count_letrec_bindings)
      by (eapply Forall_impl; [exact IHargs|]; intros ? IH; apply IH).
    lia.
  - lia.
  - destruct (IHl R) as [-> ->], (IHr R) as [-> ->]. lia.
  - destruct (IHl R) as [-> ->], (IHr R) as [-> ->], (IHc R) as [-> ->],
      (IHe R) as [-> ->]. lia.
  - lia.
  - apply IHb.
  - destruct (IHb R) as [-> ->], (IHv R) as [-> ->]. lia.
  - destruct (IHv R) as [-> ->]. rewrite !sum_list_lowered_terms.
    rewrite (sum_list_fmap_add
               (fun a => Shape.count_allocate
                           (Shape.embed (eliminate_letrec_term a R)))
               Shape.count_allocate Shape.count_letrec_bindings)
      by (eapply Forall_impl; [exact IHes|]; intros ? IH; apply IH).
    rewrite (sum_list_fmap_add
               (fun a => Shape.count_store
                           (Shape.embed (eliminate_letrec_term a R)))
               Shape.count_store Shape.count_letrec_bindings)
      by (eapply Forall_impl; [exact IHes|]; intros ? IH; apply IH).
    lia.
Qed.

Lemma duplicate_counts_NoDup (names : list Identifier) :
  NoDup (duplicate_counts (Counter names)).*1.
Proof.
  eapply sublist_NoDup; [apply (Counter_NoDup names)|].
  apply fmap_sublist, sublist_filter.
Qed.

Lemma check_term_accepts (t : L3.Term) (C : Context) :
  check_term t C = Ok
  <-> Scope.repeats_binder t = false /\ Scope.unbound_references t C = [].
Proof.
  split.
  - intros H. split; [by eapply check_term_Ok_no_repeat|].
    by apply check_term_Ok_bound.
  - intros [Hrep Hrefs]. by rewrite check_term_first_unbound, Hrefs.
Qed.

(** * Properties beyond the stated claims *)

(** X1. [check_term] accepts a term under a context exactly when no binding
    or parameter list in the term repeats a name and every reference is to a
    name made visible by the context or by an enclosing binder. *)
Theorem check_term_Ok_iff (t : L3.Term) (C : Context) :
  check_term t C = Ok
  <-> Scope.repeats_binder t = false /\ Scope.unbound_references t C = [].
Proof. apply check_term_accepts. Qed.

(** X2. [check_program] accepts a program exactly when neither its parameter
    list nor any binding or parameter list of its body repeats a name and
    every reference of the body is bound by a parameter or an enclosing
    binder. *)
Theorem check_program_Ok_iff (p : L3.Program) :
  check_program p = Ok
  <-> Scope.program_repeats_binder p = false
      /\ Scope.program_unbound_references p = [].
Proof.
  destruct p as [ps b].
  unfold Scope.program_repeats_binder, Scope.program_unbound_references.
  cbn [L3.parameters L3.body].
  rewrite check_program_eq, orb_false_iff.
  destruct (Scope.repeats ps).
  - split; [discriminate|]. by intros [[? _] _].
  - rewrite check_term_accepts. tauto.
Qed.

(** X3. Whatever [check_term] raises is a real violation: an unknown variable
    is the name of a reference that nothing makes visible (in particular it is
    not in the context); duplicate binders are a non-empty dict of names with
    a count above one, and the term does hold a binding or parameter list that
    repeats a name; duplicate parameters are a non-empty set, and again the
    term holds such a list. *)
Theorem check_term_reports_real_violation
    (t : L3.Term) (C : Context) (e : ValueError) :
  check_term t C = Raise e ->
  match e with
  | unknown_variable n => n ∈ Scope.unbound_references t C /\ n ∉ C
  | duplicate_binders d =>
      d <> [] /\ Forall repeated d /\ Scope.repeats_binder t = true
  | duplicate_parameters s => s <> ∅ /\ Scope.repeats_binder t = true
  end.
Proof.
  intros H. apply check_term_Raise_real in H.
  destruct e as [n|d|s]; [|done..].
  split; [done|]. by eapply unbound_references_not_visible.
Qed.

Lemma check_term_reports_real_violation_witness :
  check_term
    (L3.Begin [L3.Store (L3.Reference "cell") 0 (L3.Immediate 1)]
       (L3.Abstract ["a"; "a"] (L3.Reference "a")))
    {[ "x" ]}
  = Raise (unknown_variable "cell")
  /\ "cell" ∈ Scope.unbound_references
                (L3.Begin [L3.Store (L3.Reference "cell") 0 (L3.Immediate 1)]
                   (L3.Abstract ["a"; "a"] (L3.Reference "a")))
                {[ "x" ]}
  /\ "cell" ∉ ({[ "x" ]} : Context).
Proof.
  assert (check_term
            (L3.Begin [L3.Store (L3.Reference "cell") 0 (L3.Immediate 1)]
               (L3.Abstract ["a"; "a"] (L3.Reference "a")))
            {[ "x" ]}
          = Raise (unknown_variable "cell")) as Hraise
    by (vm_compute; reflexivity).
  split; [exact Hraise|].
  exact (check_term_reports_real_violation _ _ _ Hraise).
Defined.

(** X4. Making more names visible never turns an accepted term into a
    rejected one: a term accepted under a context is accepted under every
    larger context. *)
Theorem check_term_monotone (t : L3.Term) (C C' : Context) :
  C ⊆ C' -> check_term t C = Ok -> check_term t C' = Ok.
Proof. apply check_term_weaken. Qed.

Lemma check_term_monotone_witness :
  ({[ "x" ]} : Context) ⊆ {[ "x"; "y" ]}
  /\ check_term
       (L3.Let [("y", L3.Reference "x")]
          (L3.Primitive "+" (L3.Reference "x") (L3.Reference "y")))
       {[ "x" ]} = Ok
  /\ check_term
       (L3.Let [("y", L3.Reference "x")]
          (L3.Primitive "+" (L3.Reference "x") (L3.Reference "y")))
       {[ "x"; "y" ]} = Ok.
Proof.
  assert (({[ "x" ]} : Context) ⊆ {[ "x"; "y" ]}) as Hsub by compute_done.
  assert (check_term
            (L3.Let [("y", L3.Reference "x")]
               (L3.Primitive "+" (L3.Reference "x") (L3.Reference "y")))
            {[ "x" ]} = Ok) as Hok by (vm_compute; reflexivity).
  split; [exact Hsub|]. split; [exact Hok|].
  exact (check_term_monotone _ _ _ Hsub Hok).
Defined.

(** X5. A program that is accepted stays accepted when parameters are added
    to it, provided the longer parameter list repeats no name. *)
Theorem check_program_more_parameters
    (parameters extra : list Identifier) (body : L3.Term) :
  NoDup (parameters ++ extra) ->
  check_program (L3.MkProgram parameters body) = Ok ->
  check_program (L3.MkProgram (parameters ++ extra) body) = Ok.
Proof.
  intros Hnd. rewrite !check_program_eq.
  apply repeats_false in Hnd. rewrite Hnd.
  destruct (Scope.repeats parameters); [discriminate|].
  apply check_term_weaken. rewrite list_to_set_app_L. set_solver.
Qed.

Lemma check_program_more_parameters_witness :
  NoDup (["x"] ++ ["y"; "z"])
  /\ check_program (L3.MkProgram ["x"] (L3.Reference "x")) = Ok
  /\ check_program (L3.MkProgram (["x"] ++ ["y"; "z"]) (L3.Reference "x"))
     = Ok.
Proof.
  assert (NoDup (["x"] ++ ["y"; "z"])) as Hnd by compute_done.
  assert (check_program (L3.MkProgram ["x"] (L3.Reference "x")) = Ok) as Hok
    by (vm_compute; reflexivity).
  split; [exact Hnd|]. split; [exact Hok|].
  exact (check_program_more_parameters ["x"] ["y"; "z"] (L3.Reference "x")
           Hnd Hok).
Defined.

(** X6. When the binding list of a [Let] or [LetRec] repeats a name, the term
    is rejected for its duplicate binders whatever the context, the bound
    values and the body are, and the dict the error carries lists exactly the
    names bound more than once, each once, with its number of occurrences. *)
Theorem check_term_duplicate_binders_exact
    (bindings : list (Identifier * L3.Term)) (body : L3.Term) (C : Context) :
  ~ NoDup bindings.*1 ->
  exists d : list (Identifier * nat),
    check_term (L3.Let bindings body) C = Raise (duplicate_binders d)
    /\ check_term (L3.LetRec bindings body) C = Raise (duplicate_binders d)
    /\ NoDup d.*1
    /\ forall (k : Identifier) (c : nat),
         (k, c) ∈ d <-> c = occurrences k bindings.*1 /\ (1 < c)%nat.
Proof.
  intros Hrep. apply repeats_true in Hrep.
  exists (duplicate_counts (Counter bindings.*1)).
  rewrite check_term_Let, check_term_LetRec, Hrep.
  split; [done|]. split; [done|].
  split; [apply duplicate_counts_NoDup|]. apply duplicate_counts_items.
Qed.

Lemma check_term_duplicate_binders_exact_witness :
  ~ NoDup [("f", L3.Immediate 0); ("g", L3.Immediate 1);
           ("f", L3.Reference "nowhere"); ("f", L3.Immediate 3)].*1
  /\ exists d : list (Identifier * nat),
       check_term
         (L3.Let [("f", L3.Immediate 0); ("g", L3.Immediate 1);
                  ("f", L3.Reference "nowhere"); ("f", L3.Immediate 3)]
            (L3.Reference "g")) ∅
       = Raise (duplicate_binders d)
       /\ (("f", 3%nat) ∈ d).
Proof.
  assert (~ NoDup [("f", L3.Immediate 0); ("g", L3.Immediate 1);
                   ("f", L3.Reference "nowhere"); ("f", L3.Immediate 3)].*1)
    as Hrep by compute_done.
  split; [exact Hrep|].
  destruct (check_term_duplicate_binders_exact _ (L3.Reference "g") ∅ Hrep)
    as (d & HLet & _ & _ & Hitems).
  exists d. split; [exact HLet|].
  apply Hitems. vm_compute. split; [reflexivity|lia].
Defined.

(** X7. When the parameter list of an [Abstract] or of a [Program] repeats a
    name, it is rejected for its duplicate parameters whatever the context
    and the body are, and the set the error carries holds exactly the names
    listed more than once. *)
Theorem check_term_duplicate_parameters_exact
    (parameters : list Identifier) (body : L3.Term) (C : Context) :
  ~ NoDup parameters ->
  exists s : gset Identifier,
    check_term (L3.Abstract parameters body) C
    = Raise (duplicate_parameters s)
    /\ check_program (L3.MkProgram parameters body)
       = Raise (duplicate_parameters s)
    /\ forall k : Identifier, k ∈ s <-> (1 < occurrences k parameters)%nat.
Proof.
  intros Hrep. apply repeats_true in Hrep.
  exists (duplicate_names (Counter parameters)).
  rewrite check_term_Abstract, check_program_eq, Hrep.
  split; [done|]. split; [done|]. apply duplicate_names_elem_of.
Qed.

Lemma check_term_duplicate_parameters_exact_witness :
  ~ NoDup ["a"; "b"; "a"; "c"; "c"]
  /\ exists s : gset Identifier,
       check_term (L3.Abstract ["a"; "b"; "a"; "c"; "c"] (L3.Reference "b")) ∅
       = Raise (duplicate_parameters s)
       /\ "a" ∈ s /\ ("b" ∉ s) /\ "c" ∈ s.
Proof.
  assert (~ NoDup ["a"; "b"; "a"; "c"; "c"]) as Hrep by compute_done.
  split; [exact Hrep|].
  destruct (check_term_duplicate_parameters_exact _ (L3.Reference "b") ∅ Hrep)
    as (s & Hs & _ & Hitems).
  exists s. split; [exact Hs|].
  rewrite !Hitems. vm_compute. lia.
Defined.

(** X8. Lowering does not change what the checker says: the verdict of
    [check_term] on a lowered term, acceptance or the very error raised, is
    its verdict on the source term, under any context and whatever the
    recursive-name set of the lowering; and [check_program] says of a lowered
    program what it says of the source program. *)
Theorem check_term_eliminate_letrec :
  (forall (t : L3.Term) (R C : Context),
     check_term (Shape.embed (eliminate_letrec_term t R)) C = check_term t C)
  /\ (forall p : L3.Program,
        check_program (Shape.embed_program (eliminate_letrec_program p))
        = check_program p).
Proof.
  split; [apply check_term_eliminate|].
  intros [ps b]. unfold Shape.embed_program.
  cbn [eliminate_letrec_program L2.parameters L2.body].
  by rewrite !check_program_eq, check_term_eliminate.
Qed.

(** X9. A term of the target language, read as a source term and lowered
    under the empty recursive-name set, is returned as it is; hence lowering is
    idempotent: lowering the result of a lowering again, under the empty set,
    gives that result back. *)
Theorem eliminate_letrec_term_idempotent :
  (forall u : L2.Term, eliminate_letrec_term (Shape.embed u) ∅ = u)
  /\ (forall (t : L3.Term) (R : Context),
        eliminate_letrec_term
          (Shape.embed (eliminate_letrec_term t R)) ∅
        = eliminate_letrec_term t R)
  /\ (forall p : L3.Program,
        eliminate_letrec_program
          (Shape.embed_program (eliminate_letrec_program p))
        = eliminate_letrec_program p).
Proof.
  split; [apply eliminate_letrec_term_embed|].
  split; [intros t R; apply eliminate_letrec_term_embed|].
  intros [ps b]. unfold Shape.embed_program.
  cbn [eliminate_letrec_program L2.parameters L2.body].
  by rewrite eliminate_letrec_term_embed.
Qed.

(** X10. The lowering of a term depends on the recursive-name set only
    through the names the term refers to: two sets that agree on the names of
    all the [Reference] nodes of the term give the same lowered term. *)
Theorem eliminate_letrec_term_context_relevance
    (t : L3.Term) (R R' : Context) :
  (forall n : Identifier, n ∈ Shape.references t -> (n ∈ R <-> n ∈ R')) ->
  eliminate_letrec_term t R = eliminate_letrec_term t R'.
Proof.
  intros H. apply eliminate_letrec_term_relevant. by apply Forall_forall.
Qed.

Lemma eliminate_letrec_term_context_relevance_witness :
  (forall n : Identifier,
     n ∈ Shape.references
           (L3.Apply (L3.Reference "f") [L3.Reference "x"]) ->
     (n ∈ ({[ "f"; "g" ]} : Context) <-> n ∈ ({[ "f"; "h" ]} : Context)))
  /\ eliminate_letrec_term
       (L3.Apply (L3.Reference "f") [L3.Reference "x"]) {[ "f"; "g" ]}
     = eliminate_letrec_term
         (L3.Apply (L3.Reference "f") [L3.Reference "x"]) {[ "f"; "h" ]}.
Proof.
  assert (forall n : Identifier,
            n ∈ Shape.references
                  (L3.Apply (L3.Reference "f") [L3.Reference "x"]) ->
            (n ∈ ({[ "f"; "g" ]} : Context) <-> n ∈ ({[ "f"; "h" ]} : Context)))
    as Hagree.
  { intros n. simpl. rewrite !elem_of_cons, elem_of_nil.
    intros [->|[->|[]]]; compute_done. }
  split; [exact Hagree|].
  exact (eliminate_letrec_term_context_relevance _ _ _ Hagree).
Defined.

(** X11. A term that holds no [LetRec] and refers to none of the names of the
    recursive-name set is lowered to itself, whatever else the set holds. *)
Theorem eliminate_letrec_term_untouched (t : L3.Term) (R : Context) :
  Shape.contains_letrec t = false ->
  (forall n : Identifier, n ∈ Shape.references t -> n ∉ R) ->
  Shape.embed (eliminate_letrec_term t R) = t.
Proof.
  intros Hno Hrefs.
  rewrite (eliminate_letrec_term_relevant t R ∅).
  - by apply eliminate_letrec_term_identity.
  - apply Forall_forall. intros n Hn. split; [by intros ?%Hrefs|].
    by intros ?%not_elem_of_empty.
Qed.

Lemma eliminate_letrec_term_untouched_witness :
  Shape.contains_letrec
    (L3.Branch "<" (L3.Reference "x") (L3.Immediate 0)
       (L3.Load (L3.Reference "a") 1) (L3.Reference "x")) = false
  /\ Shape.embed
       (eliminate_letrec_term
          (L3.Branch "<" (L3.Reference "x") (L3.Immediate 0)
             (L3.Load (L3.Reference "a") 1) (L3.Reference "x"))
          {[ "f"; "g" ]})
     = L3.Branch "<" (L3.Reference "x") (L3.Immediate 0)
         (L3.Load (L3.Reference "a") 1) (L3.Reference "x").
Proof.
  split; [vm_compute; reflexivity|].
  apply (eliminate_letrec_term_untouched
           (L3.Branch "<" (L3.Reference "x") (L3.Immediate 0)
              (L3.Load (L3.Reference "a") 1) (L3.Reference "x"))
           {[ "f"; "g" ]}).
  - vm_compute. reflexivity.
  - intros n. simpl. rewrite !elem_of_cons, elem_of_nil.
    intros [->|[->|[->|[]]]]; compute_done.
Defined.

(** X12. Lowering adds one [Allocate] and one [Store] for each binding of
    each [LetRec] of the term, and no other: the lowered term holds as many
    [Allocate] nodes as the source term has [Allocate] nodes and [LetRec]
    bindings together, and likewise for [Store]. *)
Theorem eliminate_letrec_term_cells (t : L3.Term) (R : Context) :
  Shape.count_allocate (Shape.embed (eliminate_letrec_term t R))
  = (Shape.count_allocate t + Shape.count_letrec_bindings t)%nat
  /\ Shape.count_store (Shape.embed (eliminate_letrec_term t R))
     = (Shape.count_store t + Shape.count_letrec_bindings t)%nat.
Proof. apply eliminate_letrec_term_counts. Qed.

(** X13. The order of a parameter list does not matter to the checker: an
    [Abstract], or a [Program], and the same with its parameters permuted get
    the same verdict, down to the set of duplicate parameters reported. *)
Theorem check_term_parameter_order
    (parameters parameters' : list Identifier) (body : L3.Term) (C : Context) :
  parameters ≡ₚ parameters' ->
  check_term (L3.Abstract parameters body) C
  = check_term (L3.Abstract parameters' body) C
  /\ check_program (L3.MkProgram parameters body)
     = check_program (L3.MkProgram parameters' body).
Proof.
  intros Hperm.
  rewrite !check_term_Abstract, !check_program_eq.
  rewrite (repeats_Permutation _ _ Hperm),
    (duplicate_names_Permutation _ _ Hperm),
    (list_to_set_Permutation _ _ Hperm).
  done.
Qed.

Lemma check_term_parameter_order_witness :
  ["a"; "b"; "a"] ≡ₚ ["a"; "a"; "b"]
  /\ check_term (L3.Abstract ["a"; "b"; "a"] (L3.Reference "b")) ∅
     = check_term (L3.Abstract ["a"; "a"; "b"] (L3.Reference "b")) ∅.
Proof.
  assert (["a"; "b"; "a"] ≡ₚ ["a"; "a"; "b"]) as Hperm
    by (apply perm_skip, perm_swap).
  split; [exact Hperm|].
  exact (proj1 (check_term_parameter_order _ _ (L3.Reference "b") ∅ Hperm)).
Defined.

(** X14. The order of a binding list does not matter to acceptance: a [Let],
    or a [LetRec], is accepted exactly when the same construct with its
    bindings permuted is. *)
Theorem check_term_binding_order
    (bindings bindings' : list (Identifier * L3.Term)) (body : L3.Term)
    (C : Context) :
  bindings ≡ₚ bindings' ->
  (check_term (L3.Let bindings body) C = Ok
   <-> check_term (L3.Let bindings' body) C = Ok)
  /\ (check_term (L3.LetRec bindings body) C = Ok
      <-> check_term (L3.LetRec bindings' body) C = Ok).
Proof.
  intros Hperm.
  assert (bindings.*1 ≡ₚ bindings'.*1) as Hnames by by rewrite Hperm.
  rewrite !check_term_Let, !check_term_LetRec.
  rewrite (repeats_Permutation _ _ Hnames),
    (list_to_set_Permutation _ _ Hnames).
  destruct (Scope.repeats bindings'.*1); [done|].
  rewrite !and_then_Ok, !for_each_Ok. by rewrite Hperm.
Qed.

Lemma check_term_binding_order_witness :
  [("x", L3.Immediate 1); ("y", L3.Reference "z")]
  ≡ₚ [("y", L3.Reference "z"); ("x", L3.Immediate 1)]
  /\ (check_term
        (L3.Let [("x", L3.Immediate 1); ("y", L3.Reference "z")]
           (L3.Reference "x")) {[ "z" ]} = Ok
      <-> check_term
            (L3.Let [("y", L3.Reference "z"); ("x", L3.Immediate 1)]
               (L3.Reference "x")) {[ "z" ]} = Ok).
Proof.
  assert ([("x", L3.Immediate 1); ("y", L3.Reference "z")]
          ≡ₚ [("y", L3.Reference "z"); ("x", L3.Immediate 1)]) as Hperm
    by apply perm_swap.
  split; [exact Hperm|].
  exact (proj1 (check_term_binding_order _ _ (L3.Reference "x") {[ "z" ]}
                  Hperm)).
Defined.
